(** * Backend handler of the router: header rewriting, error classification
      and synthesized responses

    A shallow embedding of [handlers/backend_handler.go].  Go maps are
    finite maps ([gmap]); a Go map value may also be [nil], which reads as
    the empty map and faults on assignment, so a header is an optional map.
    A run-time fault (Go's panic) is an explicit outcome of every function
    that can fault.  The call to the logging collaborator is recorded in a
    trace, and the map it is handed lives in a store, since the source
    keeps writing to that map after the call has been deferred. *)

From stdpp Require Import gmap strings list fin_maps pretty.
From Stdlib Require Import ZArith Ascii String.

Open Scope Z_scope.

(** ** Faults *)

Inductive Result (A : Type) : Type :=
| Ok (a : A)
| Panic (msg : string).
Arguments Ok {A} a.
Arguments Panic {A} msg.

Definition bindR {A B} (r : Result A) (k : A → Result B) : Result B :=
  match r with
  | Ok a => k a
  | Panic msg => Panic msg
  end.

(** ** The parts of Go's [strings], [fmt] and [net/textproto] the source calls *)

Module Strings.

(** [strings.Join]: the elements of [a] with [sep] between them. *)
Fixpoint Join (a : list string) (sep : string) : string :=
  match a with
  | [] => ""
  | [x] => x
  | x :: rest => x +:+ sep +:+ Join rest sep
  end.

Fixpoint HasPrefix (s prefix : string) : bool :=
  match prefix, s with
  | EmptyString, _ => true
  | String p prefix', String c s' => Ascii.eqb p c && HasPrefix s' prefix'
  | String _ _, EmptyString => false
  end.

Definition HasSuffix (s suffix : string) : bool :=
  HasPrefix (String.rev s) (String.rev suffix).

(** [s[1:]] *)
Definition tail (s : string) : string :=
  match s with
  | EmptyString => EmptyString
  | String _ s' => s'
  end.

End Strings.

(** [fmt.Sprintf("%d.%d", major, minor)] *)
Definition Sprintf_d_dot_d (major minor : Z) : string :=
  pretty major +:+ "." +:+ pretty minor.

Module textproto.

Definition byte_of (c : ascii) : Z := Z.of_N (N_of_ascii c).
Definition ascii_of (b : Z) : ascii := ascii_of_N (Z.to_N b).

Definition isLower (c : ascii) : bool := (97 <=? byte_of c) && (byte_of c <=? 122).
Definition isUpper (c : ascii) : bool := (65 <=? byte_of c) && (byte_of c <=? 90).
Definition isDash (c : ascii) : bool := byte_of c =? 45.
Definition isSpace (c : ascii) : bool := byte_of c =? 32.

(** The quick check of [CanonicalMIMEHeaderKey]: does some letter have
    the wrong case? *)
Fixpoint wrongCase (upper : bool) (s : string) : bool :=
  match s with
  | EmptyString => false
  | String c s' =>
      if upper && isLower c then true
      else if negb upper && isUpper c then true
      else wrongCase (isDash c) s'
  end.

(** The rewriting loop: a space becomes a dash, the first letter and
    every letter after a dash are made upper case, the others lower. *)
Fixpoint canonicalMIMEHeaderKey (upper : bool) (a : string) : string :=
  match a with
  | EmptyString => EmptyString
  | String c a' =>
      if isSpace c then String "-" (canonicalMIMEHeaderKey true a')
      else
        let c' :=
          if upper && isLower c then ascii_of (byte_of c - 32)
          else if negb upper && isUpper c then ascii_of (byte_of c + 32)
          else c in
        String c' (canonicalMIMEHeaderKey (isDash c') a')
  end.

Definition CanonicalMIMEHeaderKey (s : string) : string :=
  if wrongCase true s then canonicalMIMEHeaderKey true s else s.

End textproto.

(** ** [net/http]: headers, requests, responses *)

(** [http.Header] is [map[string][]string]; [None] is the nil map. *)
Abbreviation Header := (option (gmap string (list string))).

(** [header[key]] with the comma-ok form: a nil map has no key. *)
Definition index (header : Header) (key : string) : option (list string) :=
  match header with
  | Some m => m !! key
  | None => None
  end.

(** [header.Set(key, value)]: the canonical form of [key] is mapped to the
    one-element list; assignment to an entry of a nil map faults. *)
Definition Set_ (header : Header) (key value : string) : Result Header :=
  match header with
  | Some m => Ok (Some (<[textproto.CanonicalMIMEHeaderKey key := [value]]> m))
  | None => Panic "assignment to entry in nil map"
  end.

(** [url.URL], the fields the reverse proxy touches. *)
Record URL : Type := mkURL {
  Scheme : string;
  URLHost : string;
  Path : string;
  RawQuery : string
}.

Record Request : Type := mkRequest {
  Method : string;
  ReqURL : URL;
  ReqProtoMajor : Z;
  ReqProtoMinor : Z;
  ReqHeader : Header;
  Host : string
}.

(** [strings.Reader]: the string read from and the index of the next byte. *)
Record Reader : Type := mkReader {
  Reader_s : string;
  Reader_i : Z
}.

Definition NewReader (str : string) : Reader := mkReader str 0.

(** [io.ReadCloser], by the two implementations that occur: the wrapper
    [ioutil.NopCloser] puts around a reader, and the body of a response
    read from a backend connection (what is still to be read of it and
    whether it has been closed). *)
Inductive ReadCloser : Type :=
| NopCloser (r : Reader)
| connBody (pending : string) (closed : bool).

Inductive ioError : Type :=
| EOF
| ErrClosed.

(** [r.Read(b)] for a buffer [b] of length [len]: the bytes copied, the
    error and the reader afterwards. *)
Definition Reader_Read (r : Reader) (len : Z) : string * option ioError * Reader :=
  if len =? 0 then ("", None, r)
  else if Z.of_nat (String.length (Reader_s r)) <=? Reader_i r then ("", Some EOF, r)
  else
    let rest := string_of_list_ascii (drop (Z.to_nat (Reader_i r)) (list_ascii_of_string (Reader_s r))) in
    let out := string_of_list_ascii (take (Z.to_nat len) (list_ascii_of_string rest)) in
    (out, None, mkReader (Reader_s r) (Reader_i r + Z.of_nat (String.length out))).

Definition Read (body : ReadCloser) (len : Z) : string * option ioError * ReadCloser :=
  match body with
  | NopCloser r =>
      let '(out, err, r') := Reader_Read r len in (out, err, NopCloser r')
  | connBody pending closed =>
      if closed then ("", Some ErrClosed, body)
      else if len =? 0 then ("", None, body)
      else
        match pending with
        | EmptyString => ("", Some EOF, body)
        | _ =>
            let out := string_of_list_ascii (take (Z.to_nat len) (list_ascii_of_string pending)) in
            let rest := string_of_list_ascii (drop (Z.to_nat len) (list_ascii_of_string pending)) in
            (out, None, connBody rest closed)
        end
  end.

(** [body.Close()]: the error and the body afterwards. *)
Definition Close (body : ReadCloser) : option ioError * ReadCloser :=
  match body with
  | NopCloser r => (None, NopCloser r)
  | connBody pending _ => (None, connBody pending true)
  end.

(** [http.Response], the fields the source sets or reads and those whose
    zero value shows what a synthesized response leaves out.  A nil
    [Body] is [None]. *)
Record Response : Type := mkResponse {
  Status : string;
  StatusCode : Z;
  RespProtoMajor : Z;
  RespProtoMinor : Z;
  RespHeader : Header;
  RespBody : option ReadCloser;
  ContentLength : Z
}.

(** ** Errors *)

Module syscall.

Definition Errno : Type := Z.

(** [zerrors_linux_amd64.go]: [ECONNREFUSED = Errno(0x6f)] *)
Definition ECONNREFUSED : Errno := 111.

End syscall.

Module net.

(** What the field [Err] of an [OpError] holds: a [syscall.Errno], or an
    error of any other dynamic type. *)
Inductive cause : Type :=
| errno (e : syscall.Errno)
| otherCause.

(** [*net.OpError], as the source observes it: the field [Err] and the
    result of the method [Timeout()]. *)
Record OpError : Type := mkOpError {
  Err : cause;
  Timeout : bool
}.

(** [opErr.Err == syscall.ECONNREFUSED] *)
Definition Err_is (opErr : OpError) (e : syscall.Errno) : bool :=
  match Err opErr with
  | errno e' => e' =? e
  | otherCause => false
  end.

(** A call of [net.DialTimeout(network, address, timeout)]. *)
Inductive dialing : Type :=
| DialTimeout (network address : string) (timeout : Z).

End net.

(** A non-nil value of the interface [error], as the source observes it:
    the text [err.Error()] returns and the outcome of asserting that its
    dynamic type is [*net.OpError]. *)
Record error : Type := mkError {
  Error : string;
  asOpError : option net.OpError
}.

(** ** [unicode/utf8] and [regexp] *)

Module utf8.

Definition RuneError : Z := 65533.

Definition between (lo hi b : Z) : bool := (lo <=? b) && (b <=? hi).

Definition payload (b : Z) : Z := Z.land b 63.

(** [utf8.DecodeRuneInString]: the first rune of a byte sequence and its
    width; a byte that starts no well-formed encoding is [RuneError] of
    width 1. *)
Definition DecodeRune (p : list Z) : Z * nat :=
  match p with
  | [] => (RuneError, 0%nat)
  | b0 :: p1 =>
      if b0 <? 128 then (b0, 1%nat)
      else if between 194 223 b0 then
        match p1 with
        | b1 :: _ =>
            if between 128 191 b1
            then (Z.lor (Z.shiftl (Z.land b0 31) 6) (payload b1), 2%nat)
            else (RuneError, 1%nat)
        | _ => (RuneError, 1%nat)
        end
      else if between 224 239 b0 then
        let lo := if b0 =? 224 then 160 else 128 in
        let hi := if b0 =? 237 then 159 else 191 in
        match p1 with
        | b1 :: b2 :: _ =>
            if between lo hi b1 && between 128 191 b2
            then (Z.lor (Z.shiftl (Z.land b0 15) 12)
                    (Z.lor (Z.shiftl (payload b1) 6) (payload b2)), 3%nat)
            else (RuneError, 1%nat)
        | _ => (RuneError, 1%nat)
        end
      else if between 240 244 b0 then
        let lo := if b0 =? 240 then 144 else 128 in
        let hi := if b0 =? 244 then 143 else 191 in
        match p1 with
        | b1 :: b2 :: b3 :: _ =>
            if between lo hi b1 && between 128 191 b2 && between 128 191 b3
            then (Z.lor (Z.shiftl (Z.land b0 7) 18)
                    (Z.lor (Z.shiftl (payload b1) 12)
                       (Z.lor (Z.shiftl (payload b2) 6) (payload b3))), 4%nat)
            else (RuneError, 1%nat)
        | _ => (RuneError, 1%nat)
        end
      else (RuneError, 1%nat)
  end.

(** The runes of a byte sequence, decoded one after the other; the fuel
    bounds the number of runes, and the number of bytes is always enough. *)
Fixpoint runesFuel (fuel : nat) (p : list Z) : list Z :=
  match fuel with
  | O => []
  | S fuel' =>
      match p with
      | [] => []
      | _ => let '(r, w) := DecodeRune p in r :: runesFuel fuel' (drop w p)
      end
  end.

Definition bytes (str : string) : list Z :=
  map textproto.byte_of (list_ascii_of_string str).

Definition runes (str : string) : list Z :=
  runesFuel (List.length (bytes str)) (bytes str).

End utf8.

Module regexp.

(** The syntax of the patterns the source uses: literal runes, [.]
    (any rune but a newline), [\d] (an ASCII digit) and the postfix
    operators. *)
Inductive Regexp : Type :=
| NoMatch
| EmptyMatch
| Literal (r : Z)
| AnyCharNotNL
| Digit
| Concat (a b : Regexp)
| Alternate (a b : Regexp)
| Star (a : Regexp).

Definition Plus (a : Regexp) : Regexp := Concat a (Star a).
Definition Quest (a : Regexp) : Regexp := Alternate a EmptyMatch.

(** Parsing.  [atoms] holds the pieces parsed so far, the last one
    first; a postfix operator applies to the last piece.  A pattern
    outside the syntax above is not parsed. *)
Definition isMeta (r : Z) : bool :=
  existsb (Z.eqb r) [40; 41; 91; 93; 123; 125; 124; 94; 36].

Definition postfix (op : Regexp → Regexp) (atoms : list Regexp) : option (list Regexp) :=
  match atoms with
  | a :: atoms' => Some (op a :: atoms')
  | [] => None
  end.

Fixpoint parse (atoms : list Regexp) (pattern : list Z) : option (list Regexp) :=
  match pattern with
  | [] => Some atoms
  | 92 :: 100 :: pattern' => parse (Digit :: atoms) pattern'
  | 92 :: _ => None
  | 46 :: pattern' => parse (AnyCharNotNL :: atoms) pattern'
  | 43 :: pattern' => atoms' ← postfix Plus atoms; parse atoms' pattern'
  | 42 :: pattern' => atoms' ← postfix Star atoms; parse atoms' pattern'
  | 63 :: pattern' => atoms' ← postfix Quest atoms; parse atoms' pattern'
  | r :: pattern' => if isMeta r then None else parse (Literal r :: atoms) pattern'
  end.

Definition concatAll (atoms : list Regexp) : Regexp :=
  fold_left (λ acc a, Concat a acc) atoms EmptyMatch.

Definition Compile (pattern : string) : option Regexp :=
  concatAll <$> parse [] (utf8.runes pattern).

(** Matching, by derivatives. *)
Fixpoint nullable (re : Regexp) : bool :=
  match re with
  | NoMatch => false
  | EmptyMatch => true
  | Literal _ => false
  | AnyCharNotNL => false
  | Digit => false
  | Concat a b => nullable a && nullable b
  | Alternate a b => nullable a || nullable b
  | Star _ => true
  end.

Fixpoint deriv (c : Z) (re : Regexp) : Regexp :=
  match re with
  | NoMatch => NoMatch
  | EmptyMatch => NoMatch
  | Literal r => if r =? c then EmptyMatch else NoMatch
  | AnyCharNotNL => if c =? 10 then NoMatch else EmptyMatch
  | Digit => if utf8.between 48 57 c then EmptyMatch else NoMatch
  | Concat a b =>
      if nullable a
      then Alternate (Concat (deriv c a) b) (deriv c b)
      else Concat (deriv c a) b
  | Alternate a b => Alternate (deriv c a) (deriv c b)
  | Star a => Concat (deriv c a) (Star a)
  end.

(** Does [re] match a prefix of [w]? *)
Fixpoint matchPrefix (re : Regexp) (w : list Z) : bool :=
  nullable re ||
  match w with
  | [] => false
  | c :: w' => matchPrefix (deriv c re) w'
  end.

(** Does [re] match somewhere in [w]? *)
Fixpoint search (re : Regexp) (w : list Z) : bool :=
  matchPrefix re w ||
  match w with
  | [] => false
  | _ :: w' => search re w'
  end.

(** [re.MatchString(s)]: the pattern matches some substring of [s]. *)
Definition MatchString (re : Regexp) (str : string) : bool :=
  search re (utf8.runes str).

(** What it means for a pattern to match a sequence of runes exactly. *)
Inductive Matches : Regexp → list Z → Prop :=
| MEmptyMatch : Matches EmptyMatch []
| MLiteral r : Matches (Literal r) [r]
| MAnyCharNotNL c : c ≠ 10 → Matches AnyCharNotNL [c]
| MDigit c : 48 ≤ c ≤ 57 → Matches Digit [c]
| MConcat a b u v : Matches a u → Matches b v → Matches (Concat a b) (u ++ v)
| MAlternateL a b u : Matches a u → Matches (Alternate a b) u
| MAlternateR a b u : Matches b u → Matches (Alternate a b) u
| MStarNil a : Matches (Star a) []
| MStarApp a u v : Matches a u → Matches (Star a) v → Matches (Star a) (u ++ v).

End regexp.

(** ** The logging collaborator, the store and deferred calls *)

(** A value of type [interface{}] held in the detail map. *)
Inductive value : Type :=
| VString (str : string)
| VInt (n : Z).

(** [logger.Logger]: an opaque capability, identified by a handle. *)
Inductive Logger : Type :=
| LoggerHandle (id : nat).

(** One call of [LogFromBackendRequest]: the logger called, the content
    the detail map has when the call runs, and the request. *)
Record LogCall : Type := mkLogCall {
  callee : Logger;
  details : gmap string value;
  request : Request
}.

(** A Go map value is a reference: [maps] holds the maps that were
    allocated, and a reference is an index into it.  [log] is the trace
    of the calls made to the logging collaborator, the first one first. *)
Record World : Type := mkWorld {
  maps : list (gmap string value);
  log : list LogCall
}.

(** A call put off by [defer]: callee and arguments are evaluated when the
    [defer] statement runs, the map argument being a reference. *)
Inductive deferredCall : Type :=
| deferLogFromBackendRequest (l : Logger) (logDetails : nat) (req : Request).

(** The body of a function: it runs on the calls deferred so far (the last
    one first) and on the world, and faults or returns. *)
Definition M (A : Type) : Type :=
  list deferredCall → World → Result (A * list deferredCall * World).

Definition ret {A} (a : A) : M A := λ ds w, Ok (a, ds, w).

Definition bind {A B} (c : M A) (k : A → M B) : M B :=
  λ ds w,
    match c ds w with
    | Ok (a, ds', w') => k a ds' w'
    | Panic msg => Panic msg
    end.

Declare Scope go_scope.
Delimit Scope go_scope with go.
Notation "x '<-' c ';;' k" := (bind c (λ x, k))
  (at level 100, c at next level, right associativity) : go_scope.
Notation "c ';;' k" := (bind c (λ _, k))
  (at level 100, right associativity) : go_scope.

Definition panic {A} (msg : string) : M A := λ _ _, Panic msg.

Definition liftR {A} (r : Result A) : M A :=
  λ ds w,
    match r with
    | Ok a => Ok (a, ds, w)
    | Panic msg => Panic msg
    end.

(** A map literal: a new map is allocated and its reference returned. *)
Definition makeMap (init : gmap string value) : M nat :=
  λ ds w, Ok (List.length (maps w), ds, mkWorld (maps w ++ [init]) (log w)).

(** [m[key] = v] through the reference [m]. *)
Definition assign (m : nat) (key : string) (v : value) : M unit :=
  λ ds w,
    match maps w !! m with
    | Some content =>
        Ok (tt, ds, mkWorld (<[m := <[key := v]> content]> (maps w)) (log w))
    | None => Panic "invalid memory address or nil pointer dereference"
    end.

Definition defer (d : deferredCall) : M unit :=
  λ ds w, Ok (tt, d :: ds, w).

(** [l.LogFromBackendRequest(logDetails, req)]: the collaborator sees the
    map as it is when the call runs. *)
Definition LogFromBackendRequest (l : Logger) (logDetails : nat) (req : Request)
    (w : World) : Result World :=
  match maps w !! logDetails with
  | Some content => Ok (mkWorld (maps w) (log w ++ [mkLogCall l content req]))
  | None => Panic "invalid memory address or nil pointer dereference"
  end.

Definition runDeferred (d : deferredCall) (w : World) : Result World :=
  match d with
  | deferLogFromBackendRequest l logDetails req => LogFromBackendRequest l logDetails req w
  end.

(** The deferred calls run when the function returns, the last deferred
    first. *)
Fixpoint runAllDeferred (ds : list deferredCall) (w : World) : Result World :=
  match ds with
  | [] => Ok w
  | d :: ds' => bindR (runDeferred d w) (runAllDeferred ds')
  end.

(** A call of a function with body [body]. *)
Definition call {A} (body : M A) (w : World) : Result (A * World) :=
  match body [] w with
  | Ok (a, ds, w') => bindR (runAllDeferred ds w') (λ w'', Ok (a, w''))
  | Panic msg => Panic msg
  end.

(** ** Header composer *)

Definition populateViaHeader (header : Header) (httpVersion : string) : Result Header :=
  let via := httpVersion +:+ " router" in
  let via :=
    match index header "Via" with
    | Some prior => Strings.Join prior ", " +:+ ", " +:+ via
    | None => via
    end in
  Set_ header "Via" via.

(** ** Response synthesizer *)

Definition withRespBody (resp : Response) (body : option ReadCloser) : Response :=
  mkResponse (Status resp) (StatusCode resp) (RespProtoMajor resp)
    (RespProtoMinor resp) (RespHeader resp) body (ContentLength resp).

(** The result is a pointer to a new response, never nil: every field but
    the status code has its zero value, then the body is set. *)
Definition newErrorResponse (status : Z) : option Response :=
  let resp := mkResponse "" status 0 0 None None 0 in
  let resp := withRespBody resp (Some (NopCloser (NewReader ""))) in
  Some resp.

(** ** Backend transport *)

(** [http.Transport], the fields the source sets and some it leaves at
    their zero value.  A nil [Dial] is [None]. *)
Record Transport : Type := mkTransport {
  Dial : option (string → string → net.dialing);
  DisableKeepAlives : bool;
  DisableCompression : bool;
  MaxIdleConnsPerHost : Z;
  ResponseHeaderTimeout : Z
}.

Record backendTransport : Type := mkBackendTransport {
  wrapped : Transport;
  logger : Logger
}.

Definition zeroTransport : Transport := mkTransport None false false 0 0.

Definition withDial (t : Transport) (dial : string → string → net.dialing) : Transport :=
  mkTransport (Some dial) (DisableKeepAlives t) (DisableCompression t)
    (MaxIdleConnsPerHost t) (ResponseHeaderTimeout t).

Definition withMaxIdleConnsPerHost (t : Transport) (n : Z) : Transport :=
  mkTransport (Dial t) (DisableKeepAlives t) (DisableCompression t)
    n (ResponseHeaderTimeout t).

Definition withResponseHeaderTimeout (t : Transport) (d : Z) : Transport :=
  mkTransport (Dial t) (DisableKeepAlives t) (DisableCompression t)
    (MaxIdleConnsPerHost t) d.

(** Durations ([time.Duration]) are numbers of nanoseconds. *)
Definition newBackendTransport (connectTimeout headerTimeout : Z) (logger' : Logger)
    : backendTransport :=
  let transport := mkBackendTransport zeroTransport logger' in
  let transport :=
    mkBackendTransport
      (withDial (wrapped transport)
         (λ network address, net.DialTimeout network address connectTimeout))
      (logger transport) in
  let transport :=
    mkBackendTransport (withMaxIdleConnsPerHost (wrapped transport) 20)
      (logger transport) in
  let transport :=
    mkBackendTransport (withResponseHeaderTimeout (wrapped transport) headerTimeout)
      (logger transport) in
  transport.

Definition MustCompile (pattern : string) : Result regexp.Regexp :=
  match regexp.Compile pattern with
  | Some re => Ok re
  | None => Panic "regexp: Compile: error parsing regexp"
  end.

(** The package variable holds the compiled pattern. *)
Definition invalidContentLengthRegexp : regexp.Regexp :=
  Eval vm_compute in
    match MustCompile "http: Request.ContentLength=\d+ with Body length \d+" with
    | Ok re => re
    | Panic _ => regexp.NoMatch
    end.

Definition withRespHeader (resp : Response) (header : Header) : Response :=
  mkResponse (Status resp) (StatusCode resp) (RespProtoMajor resp)
    (RespProtoMinor resp) header (RespBody resp) (ContentLength resp).

Section RoundTrip.

(** The method [RoundTrip] of [*http.Transport]: what the network answers
    to a request sent through a transport, a response pointer and an
    error. *)
Variable Transport_RoundTrip : Transport → Request → option Response * option error.

Local Open Scope go_scope.

Definition RoundTrip_body (bt : backendTransport) (req : Request)
    : M (option Response * option error) :=
  let '(resp, err) := Transport_RoundTrip (wrapped bt) req in
  match err with
  | None =>
      match resp with
      | Some r =>
          header <- liftR (populateViaHeader (RespHeader r)
                             (Sprintf_d_dot_d (RespProtoMajor r) (RespProtoMinor r)));;
          ret (Some (withRespHeader r header), None)
      | None => panic "invalid memory address or nil pointer dereference"
      end
  | Some e =>
      logDetails <- makeMap {[ "error" := VString (Error e); "status" := VInt 500 ]};;
      defer (deferLogFromBackendRequest (logger bt) logDetails req);;
      let afterOpError :=
        if String.eqb (Error e) "net/http: timeout awaiting response headers" then
          assign logDetails "status" (VInt 504);;
          ret (newErrorResponse 504, None)
        else if regexp.MatchString invalidContentLengthRegexp (Error e) then
          assign logDetails "status" (VInt 400);;
          ret (newErrorResponse 400, None)
        else
          ret (newErrorResponse 500, None) in
      match asOpError e with
      | Some opErr =>
          if net.Timeout opErr then
            assign logDetails "status" (VInt 504);;
            ret (newErrorResponse 504, None)
          else if net.Err_is opErr syscall.ECONNREFUSED then
            assign logDetails "status" (VInt 502);;
            ret (newErrorResponse 502, None)
          else afterOpError
      | None => afterOpError
      end
  end.

Definition RoundTrip (bt : backendTransport) (req : Request) (w : World)
    : Result ((option Response * option error) * World) :=
  call (RoundTrip_body bt req) w.

End RoundTrip.

(** ** Backend handler *)

Module httputil.

Definition singleJoiningSlash (a b : string) : string :=
  let aslash := Strings.HasSuffix a "/" in
  let bslash := Strings.HasPrefix b "/" in
  if aslash && bslash then a +:+ Strings.tail b
  else if negb aslash && negb bslash then a +:+ "/" +:+ b
  else a +:+ b.

(** [httputil.ReverseProxy]: the hook that rewrites a request in place
    (it may fault) and the round tripper, nil until one is installed. *)
Record ReverseProxy : Type := mkReverseProxy {
  Director : Request → Result Request;
  ProxyTransport : option backendTransport
}.

Definition NewSingleHostReverseProxy (target : URL) : ReverseProxy :=
  let targetQuery := RawQuery target in
  let director (req : Request) : Result Request :=
    let u := ReqURL req in
    let query :=
      if String.eqb targetQuery "" || String.eqb (RawQuery u) ""
      then targetQuery +:+ RawQuery u
      else targetQuery +:+ "&" +:+ RawQuery u in
    Ok (mkRequest (Method req)
          (mkURL (Scheme target) (URLHost target)
             (singleJoiningSlash (Path target) (Path u)) query)
          (ReqProtoMajor req) (ReqProtoMinor req) (ReqHeader req) (Host req)) in
  mkReverseProxy director None.

End httputil.

Definition withHost (req : Request) (host : string) : Request :=
  mkRequest (Method req) (ReqURL req) (ReqProtoMajor req) (ReqProtoMinor req)
    (ReqHeader req) host.

Definition withReqHeader (req : Request) (header : Header) : Request :=
  mkRequest (Method req) (ReqURL req) (ReqProtoMajor req) (ReqProtoMinor req)
    header (Host req).

(** The statements of the director that follow the call of the default
    director. *)
Definition rewriteRequest (backendUrl : URL) (req : Request) : Result Request :=
  let req := withHost req (URLHost backendUrl) in
  bindR
    (match index (ReqHeader req) "User-Agent" with
     | Some _ => Ok req
     | None => bindR (Set_ (ReqHeader req) "User-Agent" "") (λ h, Ok (withReqHeader req h))
     end)
    (λ req,
       bindR
         (populateViaHeader (ReqHeader req)
            (Sprintf_d_dot_d (ReqProtoMajor req) (ReqProtoMinor req)))
         (λ h, Ok (withReqHeader req h))).

Definition NewBackendHandler (backendUrl : URL) (connectTimeout headerTimeout : Z)
    (logger' : Logger) : httputil.ReverseProxy :=
  let proxy := httputil.NewSingleHostReverseProxy backendUrl in
  let proxy :=
    httputil.mkReverseProxy (httputil.Director proxy)
      (Some (newBackendTransport connectTimeout headerTimeout logger')) in
  let defaultDirector := httputil.Director proxy in
  let proxy :=
    httputil.mkReverseProxy
      (λ req, bindR (defaultDirector req) (rewriteRequest backendUrl))
      (httputil.ProxyTransport proxy) in
  proxy.

(** ** Definitions the properties are stated with *)

(** The header map after the [User-Agent] step. *)
Definition afterUserAgent (m : gmap string (list string)) : gmap string (list string) :=
  match m !! "User-Agent" with
  | Some _ => m
  | None => <["User-Agent" := [""]]> m
  end.

Definition exampleURL : URL := mkURL "http" "backend.internal:8080" "/base" "".

Definition exampleRequest (header : Header) : Request :=
  mkRequest "GET" (mkURL "" "" "/foo" "a=1") 1 1 header "www.example.org".

(** The classification in the words of the specification: ordered rules,
    the first that applies decides. *)
Definition isTimeout (e : error) : bool :=
  match asOpError e with
  | Some opErr => net.Timeout opErr
  | None => false
  end.

Definition isConnectionRefused (e : error) : bool :=
  match asOpError e with
  | Some opErr => net.Err_is opErr syscall.ECONNREFUSED
  | None => false
  end.

Definition gaveUpWaitingForHeaders (e : error) : bool :=
  String.eqb (Error e) "net/http: timeout awaiting response headers".

Definition contentLengthMismatch (e : error) : bool :=
  regexp.MatchString invalidContentLengthRegexp (Error e).

Definition classify (e : error) : Z :=
  if isTimeout e then 504
  else if isConnectionRefused e then 502
  else if gaveUpWaitingForHeaders e then 504
  else if contentLengthMismatch e then 400
  else 500.

(** The detail map of a failed call once the status is settled. *)
Definition finalDetails (e : error) : gmap string value :=
  {[ "error" := VString (Error e); "status" := VInt (classify e) ]}.

(** What [http.Transport] promises of its round trip: without an error
    there is a response, and its header map is allocated. *)
Definition TransportContract (outcome : option Response * option error) : Prop :=
  match outcome with
  | (Some r, None) => RespHeader r ≠ None
  | (None, None) => False
  | (_, Some _) => True
  end.

(** A backend that refuses the connection, one that answers, and the
    transport and world the examples run in. *)
Definition refused : error :=
  mkError "dial tcp 127.0.0.1:3160: connection refused"
    (Some (net.mkOpError (net.errno 111) false)).

Definition refusingNetwork (_ : Transport) (_ : Request) : option Response * option error :=
  (None, Some refused).

Definition answer : Response :=
  mkResponse "200 OK" 200 1 1 (Some {[ "Content-Type" := ["text/plain"] ]})
    (Some (connBody "hello" false)) 5.

Definition answeringNetwork (_ : Transport) (_ : Request) : option Response * option error :=
  (Some answer, None).

Definition exampleTransport : backendTransport :=
  newBackendTransport 1000000000 15000000000 (LoggerHandle 0).

Definition emptyWorld : World := mkWorld [] [].

(** A run of literal runes in front of a pattern, and the ASCII digits. *)
Definition literals (l : list Z) (rest : regexp.Regexp) : regexp.Regexp :=
  fold_right (λ r acc, regexp.Concat (regexp.Literal r) acc) rest l.

Definition digit (c : Z) : Prop := 48 ≤ c ≤ 57.

(** * Properties *)

(** ** Strings and header keys *)

Lemma length_append (a b : string) :
  String.length (a +:+ b) = (String.length a + String.length b)%nat.
Proof. induction a as [|c a IH]; simpl; [reflexivity | now rewrite IH]. Qed.

Lemma canonical_Via : textproto.CanonicalMIMEHeaderKey "Via" = "Via".
Proof. reflexivity. Qed.

Lemma canonical_User_Agent :
  textproto.CanonicalMIMEHeaderKey "User-Agent" = "User-Agent".
Proof. reflexivity. Qed.

Example canonical_lower : textproto.CanonicalMIMEHeaderKey "user-agent" = "User-Agent".
Proof. reflexivity. Qed.

Example Join_three : Strings.Join ["a"; "b"; "c"] ", " = "a, b, c".
Proof. reflexivity. Qed.

Example Sprintf_1_1 : Sprintf_d_dot_d 1 1 = "1.1".
Proof. reflexivity. Qed.

(** ** Header composer *)

(** On an allocated map the composer cannot fault, and writes one key. *)
Lemma populateViaHeader_alloc (m : gmap string (list string)) (httpVersion : string) :
  populateViaHeader (Some m) httpVersion =
  Ok (Some (<["Via" :=
               [match m !! "Via" with
                | Some prior => Strings.Join prior ", " +:+ ", " +:+ httpVersion +:+ " router"
                | None => httpVersion +:+ " router"
                end]]> m)).
Proof.
  unfold populateViaHeader, Set_, index. rewrite canonical_Via.
  destruct (m !! "Via"); reflexivity.
Qed.

(** Writing to a nil header map faults. *)
Lemma populateViaHeader_nil (httpVersion : string) :
  ∃ msg, populateViaHeader None httpVersion = Panic msg.
Proof. eexists. reflexivity. Qed.

(** C4, amended: for every allocated header map and version string, the
    composer sets [Via] to the version followed by " router" when the map
    has no key [Via], and to the prior values joined by ", ", then ", ",
    then the version followed by " router" when the key [Via] is present;
    every other key is unchanged. *)
Theorem populateViaHeader_Via (m : gmap string (list string)) (httpVersion : string) :
  ∃ m', populateViaHeader (Some m) httpVersion = Ok (Some m') ∧
    (m !! "Via" = None → m' !! "Via" = Some [httpVersion +:+ " router"]) ∧
    (∀ prior, m !! "Via" = Some prior →
       m' !! "Via" =
       Some [Strings.Join prior ", " +:+ ", " +:+ httpVersion +:+ " router"]) ∧
    (∀ key, key ≠ "Via" → m' !! key = m !! key).
Proof.
  eexists. split; [apply populateViaHeader_alloc |].
  split; [| split].
  - intros Hnone. rewrite Hnone. apply lookup_insert_eq.
  - intros prior Hprior. rewrite Hprior. apply lookup_insert_eq.
  - intros key Hkey. now apply lookup_insert_ne.
Qed.

Lemma populateViaHeader_Via_witness :
  (∃ m', populateViaHeader (Some ∅) (Sprintf_d_dot_d 1 1) = Ok (Some m') ∧
         m' !! "Via" = Some ["1.1 router"]) ∧
  (∃ m', populateViaHeader (Some {[ "Via" := ["1.0 fred"; "1.1 proxy"] ]})
           (Sprintf_d_dot_d 1 1) = Ok (Some m') ∧
         m' !! "Via" = Some ["1.0 fred, 1.1 proxy, 1.1 router"]).
Proof.
  split.
  - destruct (populateViaHeader_Via ∅ (Sprintf_d_dot_d 1 1)) as (m' & Hrun & Hnone & _).
    exists m'. split; [exact Hrun |]. apply Hnone. reflexivity.
  - destruct (populateViaHeader_Via {[ "Via" := ["1.0 fred"; "1.1 proxy"] ]}
                (Sprintf_d_dot_d 1 1)) as (m' & Hrun & _ & Hsome & _).
    exists m'. split; [exact Hrun |].
    apply (Hsome ["1.0 fred"; "1.1 proxy"]). reflexivity.
Defined.

(** C4 as stated fails on a map that has the key [Via] with an empty list
    of values: no prior value exists, and [Via] is not set to the version
    followed by " router". *)
Lemma populateViaHeader_no_prior_values_counterexample :
  default [] (index (Some {[ "Via" := [] ]}) "Via") = [] ∧
  ∃ m', populateViaHeader (Some {[ "Via" := [] ]}) (Sprintf_d_dot_d 1 1) = Ok (Some m') ∧
        m' !! "Via" = Some [", 1.1 router"] ∧
        m' !! "Via" ≠ Some ["1.1 router"].
Proof.
  split; [reflexivity |].
  eexists. split; [apply populateViaHeader_alloc |].
  rewrite lookup_insert_eq. split; [reflexivity | discriminate].
Qed.

(** C10: when the key [Via] is present with an empty list of values, the
    composer sets [Via] to ", " followed by the version and " router",
    which differs from the version followed by " router". *)
Theorem populateViaHeader_empty_prior (m : gmap string (list string)) (v : string) :
  m !! "Via" = Some [] →
  populateViaHeader (Some m) v = Ok (Some (<["Via" := [", " +:+ v +:+ " router"]]> m)) ∧
  ", " +:+ v +:+ " router" ≠ v +:+ " router".
Proof.
  intros Hempty. split.
  - rewrite populateViaHeader_alloc, Hempty. reflexivity.
  - intros Heq. apply (f_equal String.length) in Heq.
    rewrite !length_append in Heq. simpl in Heq. lia.
Qed.

Lemma populateViaHeader_empty_prior_witness :
  populateViaHeader (Some {[ "Via" := [] ]}) "1.1" =
    Ok (Some (<["Via" := [", 1.1 router"]]> {[ "Via" := [] ]})) ∧
  ", 1.1 router" ≠ "1.1 router".
Proof.
  apply (populateViaHeader_empty_prior {[ "Via" := [] ]} "1.1"). reflexivity.
Defined.

(** ** Backend handler: the rewrite hook *)

Lemma afterUserAgent_Via (m : gmap string (list string)) :
  afterUserAgent m !! "Via" = m !! "Via".
Proof.
  unfold afterUserAgent. destruct (m !! "User-Agent"); [reflexivity |].
  now apply lookup_insert_ne.
Qed.

Lemma rewriteRequest_alloc (backendUrl : URL) (req : Request)
    (m : gmap string (list string)) :
  ReqHeader req = Some m →
  rewriteRequest backendUrl req =
  Ok (mkRequest (Method req) (ReqURL req) (ReqProtoMajor req) (ReqProtoMinor req)
        (Some (<["Via" :=
                 [match m !! "Via" with
                  | Some prior =>
                      Strings.Join prior ", " +:+ ", " +:+
                      Sprintf_d_dot_d (ReqProtoMajor req) (ReqProtoMinor req) +:+ " router"
                  | None =>
                      Sprintf_d_dot_d (ReqProtoMajor req) (ReqProtoMinor req) +:+ " router"
                  end]]> (afterUserAgent m)))
        (URLHost backendUrl)).
Proof.
  intros Hm. unfold rewriteRequest, withHost. cbn [ReqHeader]. rewrite Hm.
  cbn [index]. unfold afterUserAgent.
  destruct (m !! "User-Agent") as [ua|] eqn:Hua; cbn [bindR Set_ withReqHeader ReqHeader
    ReqProtoMajor ReqProtoMinor Method ReqURL Host].
  - rewrite populateViaHeader_alloc. reflexivity.
  - rewrite canonical_User_Agent, populateViaHeader_alloc.
    rewrite lookup_insert_ne by discriminate. reflexivity.
Qed.


(** The default director of the single-host reverse proxy rewrites the
    URL and nothing else. *)
Lemma defaultDirector_frame (target : URL) (req : Request) :
  ∃ u, httputil.Director (httputil.NewSingleHostReverseProxy target) req =
       Ok (mkRequest (Method req) u (ReqProtoMajor req) (ReqProtoMinor req)
             (ReqHeader req) (Host req)).
Proof. eexists. reflexivity. Qed.

Lemma Director_unfold (backendUrl : URL) (connectTimeout headerTimeout : Z)
    (l : Logger) (req : Request) :
  httputil.Director (NewBackendHandler backendUrl connectTimeout headerTimeout l) req =
  bindR (httputil.Director (httputil.NewSingleHostReverseProxy backendUrl) req)
        (rewriteRequest backendUrl).
Proof. reflexivity. Qed.

(** C5: for every inbound request (its header map allocated, as the
    server hands it over), the rewrite hook returns, and the request's
    [Host] is then the host of the configured backend URL, whatever it
    was before. *)
Theorem Director_sets_Host (backendUrl : URL) (connectTimeout headerTimeout : Z)
    (l : Logger) (req : Request) (m : gmap string (list string)) :
  ReqHeader req = Some m →
  ∃ req', httputil.Director
            (NewBackendHandler backendUrl connectTimeout headerTimeout l) req = Ok req' ∧
          Host req' = URLHost backendUrl.
Proof.
  intros Hm. rewrite Director_unfold.
  destruct (defaultDirector_frame backendUrl req) as [u ->]. cbn [bindR].
  erewrite rewriteRequest_alloc by (cbn [ReqHeader]; exact Hm).
  eexists. split; reflexivity.
Qed.

Lemma Director_sets_Host_witness :
  ∃ req', httputil.Director (NewBackendHandler exampleURL 1000000000 15000000000
                               (LoggerHandle 0))
            (exampleRequest (Some {[ "Accept" := ["*/*"] ]})) = Ok req' ∧
          Host req' = "backend.internal:8080".
Proof.
  apply (Director_sets_Host exampleURL 1000000000 15000000000 (LoggerHandle 0)
           (exampleRequest (Some {[ "Accept" := ["*/*"] ]})) {[ "Accept" := ["*/*"] ]}).
  reflexivity.
Defined.

(** What the hook does to the header map of a request. *)
Lemma Director_alloc (backendUrl : URL) (connectTimeout headerTimeout : Z)
    (l : Logger) (req : Request) (m : gmap string (list string)) :
  ReqHeader req = Some m →
  ∃ req' via,
    httputil.Director
      (NewBackendHandler backendUrl connectTimeout headerTimeout l) req = Ok req' ∧
    ReqHeader req' = Some (<["Via" := [via]]> (afterUserAgent m)).
Proof.
  intros Hm. rewrite Director_unfold.
  destruct (defaultDirector_frame backendUrl req) as [u ->]. cbn [bindR].
  erewrite rewriteRequest_alloc by (cbn [ReqHeader]; exact Hm).
  eexists _, _. split; reflexivity.
Qed.

(** C6: when the header map of the inbound request has no key
    [User-Agent], the header is present after the hook has run and is the
    empty string; when the key is there, with whatever values (the empty
    string, or none), the hook leaves them as they are. *)
Theorem Director_User_Agent (backendUrl : URL) (connectTimeout headerTimeout : Z)
    (l : Logger) (req : Request) (m : gmap string (list string)) :
  ReqHeader req = Some m →
  ∃ req' m',
    httputil.Director
      (NewBackendHandler backendUrl connectTimeout headerTimeout l) req = Ok req' ∧
    ReqHeader req' = Some m' ∧
    (m !! "User-Agent" = None → m' !! "User-Agent" = Some [""]) ∧
    (∀ values, m !! "User-Agent" = Some values → m' !! "User-Agent" = Some values).
Proof.
  intros Hm.
  destruct (Director_alloc backendUrl connectTimeout headerTimeout l req m Hm)
    as (req' & via & Hrun & Hheader).
  exists req', (<["Via" := [via]]> (afterUserAgent m)).
  split; [exact Hrun |]. split; [exact Hheader |].
  rewrite lookup_insert_ne by discriminate. unfold afterUserAgent.
  split.
  - intros Hnone. rewrite Hnone. apply lookup_insert_eq.
  - intros values Hsome. rewrite Hsome. exact Hsome.
Qed.

Lemma Director_User_Agent_witness :
  (∃ req' m',
     httputil.Director (NewBackendHandler exampleURL 1000000000 15000000000
                          (LoggerHandle 0))
       (exampleRequest (Some {[ "Accept" := ["*/*"] ]})) = Ok req' ∧
     ReqHeader req' = Some m' ∧ m' !! "User-Agent" = Some [""]) ∧
  (∃ req' m',
     httputil.Director (NewBackendHandler exampleURL 1000000000 15000000000
                          (LoggerHandle 0))
       (exampleRequest (Some {[ "User-Agent" := ["curl/7.30"] ]})) = Ok req' ∧
     ReqHeader req' = Some m' ∧ m' !! "User-Agent" = Some ["curl/7.30"]).
Proof.
  split.
  - destruct (Director_User_Agent exampleURL 1000000000 15000000000 (LoggerHandle 0)
                (exampleRequest (Some {[ "Accept" := ["*/*"] ]}))
                {[ "Accept" := ["*/*"] ]} eq_refl)
      as (req' & m' & Hrun & Hheader & Hnone & _).
    exists req', m'. split; [exact Hrun |]. split; [exact Hheader |].
    apply Hnone. reflexivity.
  - destruct (Director_User_Agent exampleURL 1000000000 15000000000 (LoggerHandle 0)
                (exampleRequest (Some {[ "User-Agent" := ["curl/7.30"] ]}))
                {[ "User-Agent" := ["curl/7.30"] ]} eq_refl)
      as (req' & m' & Hrun & Hheader & _ & Hsome).
    exists req', m'. split; [exact Hrun |]. split; [exact Hheader |].
    apply Hsome. reflexivity.
Defined.

(** C9: the statements the hook adds to the default director change the
    request's [Host], the header [Via], and the header [User-Agent] only
    when that key was absent; the method, the URL, the protocol version
    and every other header key with its values are as before. *)
Theorem rewriteRequest_frame (backendUrl : URL) (req : Request)
    (m : gmap string (list string)) :
  ReqHeader req = Some m →
  ∃ req' m',
    rewriteRequest backendUrl req = Ok req' ∧
    ReqHeader req' = Some m' ∧
    Method req' = Method req ∧
    ReqURL req' = ReqURL req ∧
    ReqProtoMajor req' = ReqProtoMajor req ∧
    ReqProtoMinor req' = ReqProtoMinor req ∧
    (∀ key, key ≠ "Via" → key ≠ "User-Agent" → m' !! key = m !! key) ∧
    (is_Some (m !! "User-Agent") → m' !! "User-Agent" = m !! "User-Agent").
Proof.
  intros Hm. rewrite (rewriteRequest_alloc backendUrl req m Hm).
  eexists _, _. split; [reflexivity |]. split; [reflexivity |].
  cbn [Method ReqURL ReqProtoMajor ReqProtoMinor].
  repeat (split; [reflexivity |]).
  unfold afterUserAgent. split.
  - intros key HVia HUA. rewrite lookup_insert_ne by congruence.
    destruct (m !! "User-Agent"); [reflexivity |].
    rewrite lookup_insert_ne by congruence. reflexivity.
  - intros [values Hsome]. rewrite lookup_insert_ne by discriminate.
    rewrite Hsome. exact Hsome.
Qed.

Lemma rewriteRequest_frame_witness :
  ∃ req' m',
    rewriteRequest exampleURL
      (exampleRequest (Some {[ "Accept" := ["*/*"]; "User-Agent" := ["curl/7.30"] ]}))
    = Ok req' ∧
    ReqHeader req' = Some m' ∧
    m' !! "Accept" = Some ["*/*"] ∧
    m' !! "User-Agent" = Some ["curl/7.30"].
Proof.
  destruct (rewriteRequest_frame exampleURL
              (exampleRequest (Some {[ "Accept" := ["*/*"]; "User-Agent" := ["curl/7.30"] ]}))
              {[ "Accept" := ["*/*"]; "User-Agent" := ["curl/7.30"] ]} eq_refl)
    as (req' & m' & Hrun & Hheader & _ & _ & _ & _ & Hother & HUA).
  exists req', m'. split; [exact Hrun |]. split; [exact Hheader |].
  split.
  - rewrite Hother by discriminate. reflexivity.
  - rewrite HUA; [reflexivity |]. eexists. reflexivity.
Defined.

(** ** Response synthesizer *)

Lemma Read_empty_NopCloser (len : Z) :
  Read (NopCloser (NewReader "")) len =
  ("", if len =? 0 then None else Some EOF, NopCloser (NewReader "")).
Proof.
  unfold Read, Reader_Read, NewReader. cbn [Reader_s Reader_i String.length].
  destruct (len =? 0); reflexivity.
Qed.

(** C7: for every status code, the synthesized response is not nil, has
    that status code and a body that is not nil; every read of the body
    yields no byte (and reports the end of the stream when the buffer has
    room), closing it returns no error and changes nothing, and the
    response has no header map, hence no header. *)
Theorem newErrorResponse_shape (status : Z) :
  ∃ resp body,
    newErrorResponse status = Some resp ∧
    StatusCode resp = status ∧
    RespBody resp = Some body ∧
    (∀ len, Read body len = ("", if len =? 0 then None else Some EOF, body)) ∧
    Close body = (None, body) ∧
    RespHeader resp = None ∧
    (∀ key, index (RespHeader resp) key = None).
Proof.
  eexists _, _. split; [reflexivity |]. cbn [StatusCode RespBody RespHeader].
  split; [reflexivity |]. split; [reflexivity |].
  split; [exact Read_empty_NopCloser |].
  split; [reflexivity |]. split; [reflexivity |]. intros key. reflexivity.
Qed.

Example newErrorResponse_504 :
  newErrorResponse 504 =
  Some (mkResponse "" 504 0 0 None (Some (NopCloser (mkReader "" 0))) 0).
Proof. reflexivity. Qed.

(** ** Construction of the backend transport *)

(** C8: for every pair of timeouts, the transport built has at most 20
    idle connections per host, the given header timeout as its
    response-header timeout, and a dial function that hands every
    connection attempt, whatever the network and the address, to
    [net.DialTimeout] with the given connect timeout. *)
Theorem newBackendTransport_configuration (connectTimeout headerTimeout : Z) (l : Logger) :
  let transport := wrapped (newBackendTransport connectTimeout headerTimeout l) in
  MaxIdleConnsPerHost transport = 20 ∧
  ResponseHeaderTimeout transport = headerTimeout ∧
  ∃ dial, Dial transport = Some dial ∧
    ∀ network address, dial network address = net.DialTimeout network address connectTimeout.
Proof.
  cbn. split; [reflexivity |]. split; [reflexivity |].
  eexists. split; [reflexivity |]. intros network address. reflexivity.
Qed.

Lemma newBackendTransport_logger (connectTimeout headerTimeout : Z) (l : Logger) :
  logger (newBackendTransport connectTimeout headerTimeout l) = l.
Proof. reflexivity. Qed.

(** ** Backend transport: the round trip *)

Lemma lookup_last_allocated {A} (l : list A) (x : A) :
  (l ++ [x]) !! List.length l = Some x.
Proof. rewrite lookup_app_r by lia. rewrite Nat.sub_diag. reflexivity. Qed.

Lemma insert_last_allocated {A} (l : list A) (x y : A) :
  <[List.length l := y]> (l ++ [x]) = l ++ [y].
Proof.
  rewrite insert_app_r_alt by lia. rewrite Nat.sub_diag. reflexivity.
Qed.

Lemma details_status (text : string) (status : Z) :
  <["status" := VInt status]>
    ({[ "error" := VString text; "status" := VInt 500 ]} : gmap string value) =
  {[ "error" := VString text; "status" := VInt status ]}.
Proof.
  rewrite (insert_insert_ne (M := gmap string)) by discriminate.
  rewrite insert_singleton_eq. reflexivity.
Qed.

(** The branches that settle a status other than 500 write it to the
    detail map just allocated. *)
Ltac settle_status :=
  cbn [maps log];
  rewrite lookup_last_allocated, insert_last_allocated, details_status.

Section RoundTripProperties.

Variable network : Transport → Request → option Response * option error.

(** A failed round trip, up to the return statement: the detail map is
    allocated and holds the error text and the settled status, the call
    of the logger is deferred and has not run. *)
Lemma RoundTrip_body_failure (bt : backendTransport) (req : Request) (w : World)
    (resp0 : option Response) (e : error) :
  network (wrapped bt) req = (resp0, Some e) →
  RoundTrip_body network bt req [] w =
  Ok ((newErrorResponse (classify e), None),
      [deferLogFromBackendRequest (logger bt) (List.length (maps w)) req],
      mkWorld (maps w ++ [finalDetails e]) (log w)).
Proof.
  intros Houtcome. unfold RoundTrip_body. rewrite Houtcome.
  unfold classify, finalDetails, classify, isTimeout, isConnectionRefused,
    gaveUpWaitingForHeaders, contentLengthMismatch.
  unfold bind, makeMap, defer, assign, ret. cbn [maps log].
  destruct (asOpError e) as [opErr|].
  - destruct (net.Timeout opErr).
    { now settle_status. }
    destruct (net.Err_is opErr syscall.ECONNREFUSED).
    { now settle_status. }
    destruct (String.eqb (Error e) _).
    { now settle_status. }
    destruct (regexp.MatchString invalidContentLengthRegexp (Error e)).
    { now settle_status. }
    reflexivity.
  - destruct (String.eqb (Error e) _).
    { now settle_status. }
    destruct (regexp.MatchString invalidContentLengthRegexp (Error e)).
    { now settle_status. }
    reflexivity.
Qed.

(** A failed round trip as a whole: the deferred call runs on return. *)
Lemma RoundTrip_failure (bt : backendTransport) (req : Request) (w : World)
    (resp0 : option Response) (e : error) :
  network (wrapped bt) req = (resp0, Some e) →
  RoundTrip network bt req w =
  Ok ((newErrorResponse (classify e), None),
      mkWorld (maps w ++ [finalDetails e])
        (log w ++ [mkLogCall (logger bt) (finalDetails e) req])).
Proof.
  intros Houtcome. unfold RoundTrip, call.
  rewrite (RoundTrip_body_failure bt req w resp0 e Houtcome).
  cbn [runAllDeferred runDeferred]. unfold LogFromBackendRequest.
  cbn [maps log]. rewrite lookup_last_allocated. reflexivity.
Qed.

(** A round trip that succeeds: nothing is deferred, allocated or logged. *)
Lemma RoundTrip_success (bt : backendTransport) (req : Request) (w : World)
    (r : Response) (m : gmap string (list string)) :
  network (wrapped bt) req = (Some r, None) →
  RespHeader r = Some m →
  ∃ m', populateViaHeader (Some m)
          (Sprintf_d_dot_d (RespProtoMajor r) (RespProtoMinor r)) = Ok (Some m') ∧
        RoundTrip network bt req w = Ok ((Some (withRespHeader r (Some m')), None), w).
Proof.
  intros Houtcome Hheader. eexists. split; [apply populateViaHeader_alloc |].
  unfold RoundTrip, call, RoundTrip_body. rewrite Houtcome, Hheader.
  unfold bind, liftR, ret. rewrite populateViaHeader_alloc.
  cbn [runAllDeferred bindR]. destruct w. reflexivity.
Qed.

(** A round trip without error that returns leaves the world as it was,
    whatever the response. *)
Lemma RoundTrip_no_error_world (bt : backendTransport) (req : Request) (w w' : World)
    (resp0 : option Response) (res : option Response * option error) :
  network (wrapped bt) req = (resp0, None) →
  RoundTrip network bt req w = Ok (res, w') →
  w' = w.
Proof.
  intros Houtcome. unfold RoundTrip, call, RoundTrip_body. rewrite Houtcome.
  destruct resp0 as [r|]; [| discriminate].
  unfold bind, liftR, ret.
  destruct (populateViaHeader _ _); [| discriminate].
  cbn [runAllDeferred bindR]. intros [= _ ->]. reflexivity.
Qed.

End RoundTripProperties.

Lemma newErrorResponse_StatusCode (status : Z) :
  ∃ resp, newErrorResponse status = Some resp ∧ StatusCode resp = status.
Proof. eexists. split; reflexivity. Qed.

(** The ordered rules behind [classify], one by one. *)
Lemma classify_rules (e : error) :
  (isTimeout e = true → classify e = 504) ∧
  (isTimeout e = false → isConnectionRefused e = true → classify e = 502) ∧
  (isTimeout e = false → isConnectionRefused e = false →
   gaveUpWaitingForHeaders e = true → classify e = 504) ∧
  (isTimeout e = false → isConnectionRefused e = false →
   gaveUpWaitingForHeaders e = false → contentLengthMismatch e = true →
   classify e = 400) ∧
  (isTimeout e = false → isConnectionRefused e = false →
   gaveUpWaitingForHeaders e = false → contentLengthMismatch e = false →
   classify e = 500).
Proof.
  unfold classify. repeat split; intros; repeat
    match goal with H : _ = _ |- _ => rewrite H; clear H end; reflexivity.
Qed.

(** C1: when the wrapped round trip fails, the call returns a response
    whose status is decided by the ordered rules, the first that applies:
    504 for a timeout of the network operation, else 502 for a refused
    connection, else 504 when the message is that of the client giving up
    waiting for the response headers, else 400 when the message matches
    the content-length pattern, else 500. *)
Theorem RoundTrip_classifies
    (network : Transport → Request → option Response * option error)
    (bt : backendTransport) (req : Request) (w : World)
    (resp0 : option Response) (e : error) :
  network (wrapped bt) req = (resp0, Some e) →
  ∃ resp w',
    RoundTrip network bt req w = Ok ((Some resp, None), w') ∧
    StatusCode resp =
      (if isTimeout e then 504
       else if isConnectionRefused e then 502
       else if String.eqb (Error e) "net/http: timeout awaiting response headers" then 504
       else if regexp.MatchString invalidContentLengthRegexp (Error e) then 400
       else 500).
Proof.
  intros Houtcome.
  destruct (newErrorResponse_StatusCode (classify e)) as (resp & Hresp & Hstatus).
  eexists resp, _. split.
  - rewrite (RoundTrip_failure network bt req w resp0 e Houtcome), Hresp. reflexivity.
  - exact Hstatus.
Qed.

Lemma RoundTrip_classifies_witness :
  ∃ resp w',
    RoundTrip refusingNetwork exampleTransport (exampleRequest (Some ∅)) emptyWorld =
      Ok ((Some resp, None), w') ∧
    StatusCode resp = 502.
Proof.
  apply (RoundTrip_classifies refusingNetwork exampleTransport (exampleRequest (Some ∅))
           emptyWorld None refused).
  reflexivity.
Defined.

(** C2: whatever the request and whatever the wrapped round trip yields
    (an error, or a response as the transport delivers it), the call
    returns a response that is not nil and a nil error; it does not
    fault. *)
Theorem RoundTrip_recovers
    (network : Transport → Request → option Response * option error)
    (bt : backendTransport) (req : Request) (w : World) :
  TransportContract (network (wrapped bt) req) →
  ∃ resp w', RoundTrip network bt req w = Ok ((Some resp, None), w').
Proof.
  intros Hcontract.
  destruct (network (wrapped bt) req) as [resp0 [e|]] eqn:Houtcome.
  - destruct (newErrorResponse_StatusCode (classify e)) as (resp & Hresp & _).
    exists resp. eexists.
    rewrite (RoundTrip_failure network bt req w resp0 e Houtcome), Hresp. reflexivity.
  - destruct resp0 as [r|]; [| contradiction]. cbn in Hcontract.
    destruct (RespHeader r) as [m|] eqn:Hheader; [| congruence].
    destruct (RoundTrip_success network bt req w r m Houtcome Hheader) as (m' & _ & Hrun).
    eexists _, _. exact Hrun.
Qed.

Lemma RoundTrip_recovers_witness :
  (∃ resp w',
     RoundTrip refusingNetwork exampleTransport (exampleRequest (Some ∅)) emptyWorld =
       Ok ((Some resp, None), w')) ∧
  (∃ resp w',
     RoundTrip answeringNetwork exampleTransport (exampleRequest (Some ∅)) emptyWorld =
       Ok ((Some resp, None), w')).
Proof.
  split.
  - apply (RoundTrip_recovers refusingNetwork). exact I.
  - apply (RoundTrip_recovers answeringNetwork). discriminate.
Defined.

Lemma finalDetails_error (e : error) :
  finalDetails e !! "error" = Some (VString (Error e)).
Proof. unfold finalDetails. apply lookup_insert_eq. Qed.

Lemma finalDetails_status (e : error) :
  finalDetails e !! "status" = Some (VInt (classify e)).
Proof.
  unfold finalDetails. rewrite lookup_insert_ne by discriminate.
  apply lookup_singleton_eq.
Qed.

(** C3: when the wrapped round trip fails, the body of the call ends with
    the status settled, nothing logged yet and one call of the logger
    deferred; on return that call runs, so that the trace grows by exactly
    one entry, made by the transport's logger for the request, whose
    detail map holds the text of the error and, as status, the status of
    the response returned.  When the wrapped round trip succeeds the call
    returns with the trace unchanged, and no call that returns after a
    round trip without error has added to the trace. *)
Theorem RoundTrip_logs_once
    (network : Transport → Request → option Response * option error)
    (bt : backendTransport) (req : Request) (w : World) :
  (∀ resp0 e,
     network (wrapped bt) req = (resp0, Some e) →
     ∃ resp logDetails w1 w' entry,
       RoundTrip_body network bt req [] w =
         Ok ((Some resp, None),
             [deferLogFromBackendRequest (logger bt) logDetails req], w1) ∧
       log w1 = log w ∧
       maps w1 !! logDetails = Some (details entry) ∧
       RoundTrip network bt req w = Ok ((Some resp, None), w') ∧
       log w' = log w ++ [entry] ∧
       callee entry = logger bt ∧
       request entry = req ∧
       details entry !! "error" = Some (VString (Error e)) ∧
       details entry !! "status" = Some (VInt (StatusCode resp))) ∧
  (∀ r m,
     network (wrapped bt) req = (Some r, None) →
     RespHeader r = Some m →
     ∃ resp w',
       RoundTrip network bt req w = Ok ((Some resp, None), w') ∧
       log w' = log w) ∧
  (∀ resp0 res w',
     network (wrapped bt) req = (resp0, None) →
     RoundTrip network bt req w = Ok (res, w') →
     log w' = log w).
Proof.
  split; [| split].
  - intros resp0 e Houtcome.
    destruct (newErrorResponse_StatusCode (classify e)) as (resp & Hresp & Hstatus).
    exists resp, (List.length (maps w)),
      (mkWorld (maps w ++ [finalDetails e]) (log w)),
      (mkWorld (maps w ++ [finalDetails e])
         (log w ++ [mkLogCall (logger bt) (finalDetails e) req])),
      (mkLogCall (logger bt) (finalDetails e) req).
    cbn [maps log callee request details].
    split; [| split; [| split; [| split]]].
    + rewrite (RoundTrip_body_failure network bt req w resp0 e Houtcome), Hresp.
      reflexivity.
    + reflexivity.
    + apply lookup_last_allocated.
    + rewrite (RoundTrip_failure network bt req w resp0 e Houtcome), Hresp.
      reflexivity.
    + split; [reflexivity |]. split; [reflexivity |]. split; [reflexivity |].
      split; [apply finalDetails_error |].
      rewrite Hstatus. apply finalDetails_status.
  - intros r m Houtcome Hheader.
    destruct (RoundTrip_success network bt req w r m Houtcome Hheader) as (m' & _ & Hrun).
    eexists _, _. split; [exact Hrun | reflexivity].
  - intros resp0 res w' Houtcome Hrun.
    rewrite (RoundTrip_no_error_world network bt req w w' resp0 res Houtcome Hrun).
    reflexivity.
Qed.

Lemma RoundTrip_logs_once_witness :
  (∃ resp w',
     RoundTrip refusingNetwork exampleTransport (exampleRequest (Some ∅)) emptyWorld =
       Ok ((Some resp, None), w') ∧
     ∃ entry, log w' = [entry] ∧
       details entry !! "status" = Some (VInt (StatusCode resp))) ∧
  (∃ resp w',
     RoundTrip answeringNetwork exampleTransport (exampleRequest (Some ∅)) emptyWorld =
       Ok ((Some resp, None), w') ∧
     log w' = []).
Proof.
  split.
  - destruct (proj1 (RoundTrip_logs_once refusingNetwork exampleTransport
                       (exampleRequest (Some ∅)) emptyWorld) None refused eq_refl)
      as (resp & logDetails & w1 & w' & entry & _ & _ & _ & Hrun & Hlog & _ & _ & _ & Hstatus).
    exists resp, w'. split; [exact Hrun |]. exists entry. split; [exact Hlog | exact Hstatus].
  - destruct (proj1 (proj2 (RoundTrip_logs_once answeringNetwork exampleTransport
                              (exampleRequest (Some ∅)) emptyWorld))
                answer {[ "Content-Type" := ["text/plain"] ]} eq_refl eq_refl)
      as (resp & w' & Hrun & Hlog).
    exists resp, w'. split; [exact Hrun | exact Hlog].
Defined.

(** The refused connection, run: status 502 in the response and in the
    one log entry. *)
Example RoundTrip_refused :
  RoundTrip refusingNetwork exampleTransport (exampleRequest (Some ∅)) emptyWorld =
  Ok ((newErrorResponse 502, None),
      mkWorld
        [{[ "error" := VString "dial tcp 127.0.0.1:3160: connection refused";
            "status" := VInt 502 ]}]
        [mkLogCall (LoggerHandle 0)
           {[ "error" := VString "dial tcp 127.0.0.1:3160: connection refused";
              "status" := VInt 502 ]}
           (exampleRequest (Some ∅))]).
Proof. vm_compute. reflexivity. Qed.

(** ** The pattern matcher *)

Lemma nullable_Matches (re : regexp.Regexp) :
  regexp.nullable re = true ↔ regexp.Matches re [].
Proof.
  induction re as [| | r | | | a IHa b IHb | a IHa b IHb | a IHa]; cbn [regexp.nullable].
  - split; [discriminate | intros H; inversion H].
  - split; [intros _; constructor | reflexivity].
  - split; [discriminate | intros H; inversion H].
  - split; [discriminate | intros H; inversion H].
  - split; [discriminate | intros H; inversion H].
  - rewrite andb_true_iff, IHa, IHb. split.
    + intros [Ha Hb]. exact (regexp.MConcat a b [] [] Ha Hb).
    + intros H. inversion H as [| | | | a' b' u v Ha Hb Heq Hnil | | | |]; subst.
      apply app_eq_nil in Hnil as [-> ->]. split; assumption.
  - rewrite orb_true_iff, IHa, IHb. split.
    + intros [Ha | Hb]; [now apply regexp.MAlternateL | now apply regexp.MAlternateR].
    + intros H. inversion H; subst; [left | right]; assumption.
  - split; [intros _; constructor | reflexivity].
Qed.

(** A starred pattern that matches a sequence starting with [c] matches
    it as one round that takes [c], followed by further rounds. *)
Lemma Matches_Star_cons (a : regexp.Regexp) (c : Z) (w : list Z) :
  regexp.Matches (regexp.Star a) (c :: w) →
  ∃ u v, w = u ++ v ∧ regexp.Matches a (c :: u) ∧ regexp.Matches (regexp.Star a) v.
Proof.
  remember (regexp.Star a) as re eqn:Hre. remember (c :: w) as cw eqn:Hcw.
  intros H. revert w Hcw.
  induction H as [| | | | | | | a' | a' u v Hu _ Hv IHv]; try discriminate; intros w Hcw.
  injection Hre as ->. destruct u as [|c' u'].
  - apply IHv; [reflexivity | exact Hcw].
  - cbn in Hcw. injection Hcw as -> <-. exists u', v. auto.
Qed.

Lemma deriv_Matches (re : regexp.Regexp) (c : Z) (w : list Z) :
  regexp.Matches (regexp.deriv c re) w ↔ regexp.Matches re (c :: w).
Proof.
  revert w.
  induction re as [| | r | | | a IHa b IHb | a IHa b IHb | a IHa]; intros w;
    cbn [regexp.deriv].
  - split; intros H; inversion H.
  - split; intros H; inversion H.
  - destruct (Z.eqb_spec r c) as [-> | Hne].
    + split; intros H; inversion H; subst; constructor.
    + split; intros H; inversion H; subst; congruence.
  - destruct (Z.eqb_spec c 10) as [-> | Hne].
    + split; intros H; inversion H; subst; congruence.
    + split; intros H; inversion H; subst; now constructor.
  - unfold utf8.between.
    destruct (Z.leb_spec 48 c) as [Hlo|Hlo], (Z.leb_spec c 57) as [Hhi|Hhi]; cbn [andb];
      split; intros H; inversion H; subst; try lia; constructor; lia.
  - split.
    + intros H.
      assert (Hleft : ∀ w, regexp.Matches (regexp.Concat (regexp.deriv c a) b) w →
                           regexp.Matches (regexp.Concat a b) (c :: w)).
      { intros w' H'. inversion H' as [| | | | a' b' u v Hu Hv | | | |]; subst.
        apply IHa in Hu. exact (regexp.MConcat a b (c :: u) v Hu Hv). }
      destruct (regexp.nullable a) eqn:Hnull.
      * inversion H; subst; [now apply Hleft |].
        apply nullable_Matches in Hnull.
        match goal with Hb : regexp.Matches (regexp.deriv c b) _ |- _ =>
          apply IHb in Hb; exact (regexp.MConcat a b [] (c :: w) Hnull Hb) end.
      * now apply Hleft.
    + intros H. inversion H as [| | | | a' b' u v Hu Hv Heq Hcw | | | |]; subst.
      destruct u as [|c' u'].
      * cbn in Hcw. subst v. apply nullable_Matches in Hu. rewrite Hu.
        apply regexp.MAlternateR. now apply IHb.
      * cbn in Hcw. injection Hcw as -> <-.
        apply IHa in Hu.
        pose proof (regexp.MConcat _ _ _ _ Hu Hv) as Hcat.
        destruct (regexp.nullable a); [now apply regexp.MAlternateL | exact Hcat].
  - split.
    + intros H. inversion H; subst.
      * apply regexp.MAlternateL. now apply IHa.
      * apply regexp.MAlternateR. now apply IHb.
    + intros H. inversion H; subst.
      * apply regexp.MAlternateL. now apply IHa.
      * apply regexp.MAlternateR. now apply IHb.
  - split.
    + intros H. inversion H as [| | | | a' b' u v Hu Hv | | | |]; subst.
      apply IHa in Hu. exact (regexp.MStarApp a (c :: u) v Hu Hv).
    + intros H. apply Matches_Star_cons in H as (u & v & -> & Hu & Hv).
      apply IHa in Hu. now constructor.
Qed.

(** [matchPrefix] finds the prefixes the pattern matches. *)
Lemma matchPrefix_Matches (re : regexp.Regexp) (w : list Z) :
  regexp.matchPrefix re w = true ↔ ∃ u v, w = u ++ v ∧ regexp.Matches re u.
Proof.
  revert re. induction w as [|c w IH]; intros re; cbn [regexp.matchPrefix].
  - rewrite orb_false_r, nullable_Matches. split.
    + intros H. exists [], []. auto.
    + intros (u & v & Heq & H). symmetry in Heq.
      apply app_eq_nil in Heq as [-> _]. exact H.
  - rewrite orb_true_iff, nullable_Matches, IH. split.
    + intros [H | (u & v & -> & H)].
      * exists [], (c :: w). auto.
      * exists (c :: u), v. split; [reflexivity |]. now apply deriv_Matches.
    + intros (u & v & Heq & H). destruct u as [|c' u'].
      * left. exact H.
      * cbn in Heq. injection Heq as <- ->. right. exists u', v.
        split; [reflexivity |]. now apply deriv_Matches.
Qed.

(** [search] finds the substrings the pattern matches. *)
Lemma search_Matches (re : regexp.Regexp) (w : list Z) :
  regexp.search re w = true ↔
  ∃ before u after, w = before ++ u ++ after ∧ regexp.Matches re u.
Proof.
  induction w as [|c w IH]; cbn [regexp.search].
  - rewrite orb_false_r, matchPrefix_Matches. split.
    + intros (u & v & Heq & H). exists [], u, v. auto.
    + intros (before & u & after & Heq & H). symmetry in Heq.
      apply app_eq_nil in Heq as [-> Heq]. apply app_eq_nil in Heq as [-> ->].
      exists [], []. auto.
  - rewrite orb_true_iff, matchPrefix_Matches, IH. split.
    + intros [(u & v & Heq & H) | (before & u & after & -> & H)].
      * exists [], u, v. auto.
      * exists (c :: before), u, after. auto.
    + intros (before & u & after & Heq & H). destruct before as [|c' before'].
      * left. exists u, after. auto.
      * cbn in Heq. injection Heq as <- ->. right. exists before', u, after. auto.
Qed.

Lemma Matches_literals (l : list Z) (rest : regexp.Regexp) (w : list Z) :
  regexp.Matches (literals l rest) w ↔ ∃ v, w = l ++ v ∧ regexp.Matches rest v.
Proof.
  revert w. induction l as [|r l IH]; intros w; cbn [literals fold_right].
  - split; [intros H; exists w; auto | intros (v & -> & H); exact H].
  - fold (literals l rest). split.
    + intros H. inversion H as [| | | | a b u v Hu Hv | | | |]; subst.
      inversion Hu; subst. apply IH in Hv as (v' & -> & Hv').
      exists v'. auto.
    + intros (v & -> & H).
      apply (regexp.MConcat _ _ [r] (l ++ v)); [constructor |].
      apply IH. exists v. auto.
Qed.

Lemma Matches_Star_Digit (w : list Z) :
  regexp.Matches (regexp.Star regexp.Digit) w ↔ Forall digit w.
Proof.
  split.
  - remember (regexp.Star regexp.Digit) as re eqn:Hre. intros H.
    induction H as [| | | | | | | a | a u v Hu _ Hv IHv]; try discriminate.
    + constructor.
    + injection Hre as ->. inversion Hu; subst.
      constructor; [assumption | now apply IHv].
  - induction 1 as [|c w Hc _ IH]; [constructor |].
    apply (regexp.MStarApp _ [c] w); [now constructor | exact IH].
Qed.

Lemma Matches_Plus_Digit (w : list Z) :
  regexp.Matches (regexp.Plus regexp.Digit) w ↔ w ≠ [] ∧ Forall digit w.
Proof.
  unfold regexp.Plus. split.
  - intros H. inversion H as [| | | | a b u v Hu Hv | | | |]; subst.
    inversion Hu; subst. apply Matches_Star_Digit in Hv.
    split; [discriminate | now constructor].
  - intros [Hne Hall]. destruct Hall as [|c w Hc Hw]; [congruence |].
    apply (regexp.MConcat _ _ [c] w); [now constructor | now apply Matches_Star_Digit].
Qed.

Lemma MustCompile_invalidContentLengthRegexp :
  MustCompile "http: Request.ContentLength=\d+ with Body length \d+" =
  Ok invalidContentLengthRegexp.
Proof. vm_compute. reflexivity. Qed.

Lemma invalidContentLengthRegexp_shape :
  invalidContentLengthRegexp =
  literals (utf8.runes "http: Request")
    (regexp.Concat regexp.AnyCharNotNL
       (literals (utf8.runes "ContentLength=")
          (regexp.Concat (regexp.Plus regexp.Digit)
             (literals (utf8.runes " with Body length ")
                (regexp.Concat (regexp.Plus regexp.Digit) regexp.EmptyMatch))))).
Proof. vm_compute. reflexivity. Qed.

Lemma Matches_Concat (a b : regexp.Regexp) (w : list Z) :
  regexp.Matches (regexp.Concat a b) w ↔
  ∃ u v, w = u ++ v ∧ regexp.Matches a u ∧ regexp.Matches b v.
Proof.
  split.
  - intros H. inversion H; subst. eauto.
  - intros (u & v & -> & Hu & Hv). now constructor.
Qed.

Lemma Matches_AnyCharNotNL (w : list Z) :
  regexp.Matches regexp.AnyCharNotNL w ↔ ∃ c, w = [c] ∧ c ≠ 10.
Proof.
  split.
  - intros H. inversion H; subst. eauto.
  - intros (c & -> & Hc). now constructor.
Qed.

Lemma Matches_EmptyMatch (w : list Z) :
  regexp.Matches regexp.EmptyMatch w ↔ w = [].
Proof.
  split.
  - intros H. inversion H. reflexivity.
  - intros ->. constructor.
Qed.

(** What the content-length pattern matches: the fixed text with any
    rune but a newline in the place of the dot, and two non-empty runs
    of digits. *)
Lemma invalidContentLengthRegexp_Matches (w : list Z) :
  regexp.Matches invalidContentLengthRegexp w ↔
  ∃ c declared actual,
    w = utf8.runes "http: Request" ++ [c] ++ utf8.runes "ContentLength=" ++
        declared ++ utf8.runes " with Body length " ++ actual ∧
    c ≠ 10 ∧
    declared ≠ [] ∧ Forall digit declared ∧
    actual ≠ [] ∧ Forall digit actual.
Proof.
  rewrite invalidContentLengthRegexp_shape, Matches_literals. split.
  - intros (v1 & -> & H).
    apply Matches_Concat in H as (u & v2 & -> & Hu & H).
    apply Matches_AnyCharNotNL in Hu as (c & -> & Hc).
    apply Matches_literals in H as (v3 & -> & H).
    apply Matches_Concat in H as (declared & v4 & -> & Hd & H).
    apply Matches_Plus_Digit in Hd as [Hd1 Hd2].
    apply Matches_literals in H as (v5 & -> & H).
    apply Matches_Concat in H as (actual & v6 & -> & Ha & H).
    apply Matches_Plus_Digit in Ha as [Ha1 Ha2].
    apply Matches_EmptyMatch in H as ->. rewrite app_nil_r.
    exists c, declared, actual. repeat split; assumption.
  - intros (c & declared & actual & -> & Hc & Hd1 & Hd2 & Ha1 & Ha2).
    eexists. split; [reflexivity |].
    apply Matches_Concat. exists [c]. eexists. split; [reflexivity |].
    split; [apply Matches_AnyCharNotNL; eauto |].
    apply Matches_literals. eexists. split; [reflexivity |].
    apply Matches_Concat. exists declared. eexists. split; [reflexivity |].
    split; [now apply Matches_Plus_Digit |].
    apply Matches_literals. eexists. split; [reflexivity |].
    apply Matches_Concat. exists actual, []. split; [now rewrite app_nil_r |].
    split; [now apply Matches_Plus_Digit | constructor].
Qed.

(** The fourth rule applies exactly when the message of the error
    contains such a text. *)
Lemma contentLengthMismatch_spec (e : error) :
  contentLengthMismatch e = true ↔
  ∃ before c declared actual after,
    utf8.runes (Error e) =
      before ++
      (utf8.runes "http: Request" ++ [c] ++ utf8.runes "ContentLength=" ++
       declared ++ utf8.runes " with Body length " ++ actual) ++
      after ∧
    c ≠ 10 ∧
    declared ≠ [] ∧ Forall digit declared ∧
    actual ≠ [] ∧ Forall digit actual.
Proof.
  unfold contentLengthMismatch, regexp.MatchString. rewrite search_Matches. split.
  - intros (before & u & after & Heq & H).
    apply invalidContentLengthRegexp_Matches in H as (c & declared & actual & -> & Hrest).
    exists before, c, declared, actual, after. split; [exact Heq | exact Hrest].
  - intros (before & c & declared & actual & after & Heq & Hrest).
    eexists before, _, after. split; [exact Heq |].
    apply invalidContentLengthRegexp_Matches. exists c, declared, actual.
    split; [reflexivity | exact Hrest].
Qed.

(** ** Decoding of runes *)

Lemma DecodeRune_width (p : list Z) :
  p ≠ [] → (1 ≤ snd (utf8.DecodeRune p))%nat.
Proof.
  destruct p as [|b0 p1]; [congruence |]. intros _. unfold utf8.DecodeRune.
  repeat
    match goal with
    | |- context [if ?b then _ else _] => destruct b
    | |- context [match ?l with [] => _ | _ :: _ => _ end] => destruct l
    end; cbn [snd]; lia.
Qed.

(** Any fuel that covers the number of bytes gives the same runes. *)
Lemma runesFuel_enough (fuel1 fuel2 : nat) (p : list Z) :
  (List.length p ≤ fuel1)%nat → (List.length p ≤ fuel2)%nat →
  utf8.runesFuel fuel1 p = utf8.runesFuel fuel2 p.
Proof.
  revert fuel2 p. induction fuel1 as [|fuel1 IH]; intros fuel2 p H1 H2.
  - destruct p; [| cbn in H1; lia]. destruct fuel2; reflexivity.
  - destruct p as [|b0 p1]; [destruct fuel2; reflexivity |].
    destruct fuel2 as [|fuel2]; [cbn in H2; lia |].
    cbn [utf8.runesFuel].
    pose proof (DecodeRune_width (b0 :: p1) ltac:(discriminate)) as Hwidth.
    destruct (utf8.DecodeRune (b0 :: p1)) as [r width]. cbn [snd] in Hwidth.
    f_equal. apply IH; rewrite length_drop; cbn [List.length] in *; lia.
Qed.

(** A text of ASCII bytes is its own sequence of runes. *)
Lemma runesFuel_ascii (fuel : nat) (p : list Z) :
  Forall (λ b, b < 128) p → (List.length p ≤ fuel)%nat → utf8.runesFuel fuel p = p.
Proof.
  revert p. induction fuel as [|fuel IH]; intros p Hascii Hfuel.
  - destruct p; [reflexivity | cbn in Hfuel; lia].
  - destruct Hascii as [|b p Hb Hp]; [reflexivity |].
    cbn [utf8.runesFuel utf8.DecodeRune].
    destruct (Z.ltb_spec b 128) as [_ | Hge]; [| lia].
    cbn [drop]. f_equal. apply IH; [exact Hp | cbn in Hfuel; lia].
Qed.

Example runes_two_and_three_bytes : utf8.runes "é€" = [233; 8364].
Proof. vm_compute. reflexivity. Qed.

(** ** The classification at work *)

Example classify_operation_timeout :
  classify (mkError "dial tcp 10.0.0.1:80: i/o timeout"
              (Some (net.mkOpError net.otherCause true))) = 504.
Proof. vm_compute. reflexivity. Qed.

Example classify_connection_refused : classify refused = 502.
Proof. vm_compute. reflexivity. Qed.

Example classify_header_timeout :
  classify (mkError "net/http: timeout awaiting response headers" None) = 504.
Proof. vm_compute. reflexivity. Qed.

Example classify_content_length :
  classify (mkError "http: Request.ContentLength=12 with Body length 4" None) = 400.
Proof. vm_compute. reflexivity. Qed.

(** The match may be anywhere in the message, and the dot of the pattern
    takes any rune. *)
Example classify_content_length_inside :
  classify (mkError "Post http://b/: http: Request€ContentLength=1 with Body length 22 (x)"
              None) = 400.
Proof. vm_compute. reflexivity. Qed.

Example classify_lookup_failure :
  classify (mkError "dial tcp: lookup backend.internal: no such host"
              (Some (net.mkOpError net.otherCause false))) = 500.
Proof. vm_compute. reflexivity. Qed.

(** The first rule that applies decides: an operation that timed out is a
    504 whatever its message. *)
Example classify_first_match :
  classify (mkError "http: Request.ContentLength=12 with Body length 4"
              (Some (net.mkOpError (net.errno 111) true))) = 504.
Proof. vm_compute. reflexivity. Qed.

(** An operation error that is neither a timeout nor a refused connection
    falls through to the rules on the message. *)
Example classify_falls_through :
  classify (mkError "net/http: timeout awaiting response headers"
              (Some (net.mkOpError (net.errno 104) false))) = 504.
Proof. vm_compute. reflexivity. Qed.

(** ** The hook and the round trip, run *)

Example Director_run :
  httputil.Director (NewBackendHandler exampleURL 1000000000 15000000000 (LoggerHandle 0))
    (exampleRequest (Some {[ "Via" := ["1.0 fred"] ]})) =
  Ok (mkRequest "GET" (mkURL "http" "backend.internal:8080" "/base/foo" "a=1") 1 1
        (Some {[ "Via" := ["1.0 fred, 1.1 router"]; "User-Agent" := [""] ]})
        "backend.internal:8080").
Proof. vm_compute. reflexivity. Qed.

Example RoundTrip_answered :
  RoundTrip answeringNetwork exampleTransport (exampleRequest (Some ∅)) emptyWorld =
  Ok ((Some (mkResponse "200 OK" 200 1 1
               (Some {[ "Content-Type" := ["text/plain"]; "Via" := ["1.1 router"] ]})
               (Some (connBody "hello" false)) 5), None),
      emptyWorld).
Proof. vm_compute. reflexivity. Qed.

(** A response without header map makes the call fault; the transport
    never delivers one. *)
Example RoundTrip_nil_header :
  RoundTrip (λ _ _, (Some (mkResponse "200 OK" 200 1 1 None None 0), None))
    exampleTransport (exampleRequest (Some ∅)) emptyWorld =
  Panic "assignment to entry in nil map".
Proof. vm_compute. reflexivity. Qed.

(** * Further properties of the header composer *)







(** X3: after the composer has run the key [Via] has exactly one value,
    however many it had, and the keys of the map are those it had
    together with [Via]. *)
Theorem populateViaHeader_single_value (m : gmap string (list string)) (httpVersion : string) :
  ∃ m' via,
    populateViaHeader (Some m) httpVersion = Ok (Some m') ∧
    m' !! "Via" = Some [via] ∧
    dom m' = {[ "Via" ]} ∪ dom m.
Proof.
  eexists _, _. split; [apply populateViaHeader_alloc |].
  split; [apply lookup_insert_eq | apply dom_insert_L].
Qed.

(** * Further properties of the rewrite hook *)



(** X5: the hook stamps the request with the protocol version of the
    request itself: [Via] gets the prior values, if the key was there,
    followed by that version and " router"; the keys of the header map
    are then those it had together with [Via] and [User-Agent]. *)
Theorem Director_Via (backendUrl : URL) (connectTimeout headerTimeout : Z)
    (l : Logger) (req : Request) (m : gmap string (list string)) :
  ReqHeader req = Some m →
  ∃ req' m',
    httputil.Director
      (NewBackendHandler backendUrl connectTimeout headerTimeout l) req = Ok req' ∧
    ReqHeader req' = Some m' ∧
    ReqProtoMajor req' = ReqProtoMajor req ∧
    ReqProtoMinor req' = ReqProtoMinor req ∧
    m' !! "Via" =
      Some [match m !! "Via" with
            | Some prior =>
                Strings.Join prior ", " +:+ ", " +:+
                Sprintf_d_dot_d (ReqProtoMajor req) (ReqProtoMinor req) +:+ " router"
            | None => Sprintf_d_dot_d (ReqProtoMajor req) (ReqProtoMinor req) +:+ " router"
            end] ∧
    dom m' = {[ "Via"; "User-Agent" ]} ∪ dom m.
Proof.
  intros Hm. rewrite Director_unfold.
  destruct (defaultDirector_frame backendUrl req) as [u ->]. cbn [bindR].
  erewrite rewriteRequest_alloc by (cbn [ReqHeader]; exact Hm).
  cbn [ReqProtoMajor ReqProtoMinor].
  eexists _, _. split; [reflexivity |]. cbn [ReqHeader ReqProtoMajor ReqProtoMinor].
  split; [reflexivity |]. split; [reflexivity |]. split; [reflexivity |].
  split; [apply lookup_insert_eq |].
  rewrite dom_insert_L. unfold afterUserAgent.
  destruct (m !! "User-Agent") as [values|] eqn:HUA.
  - assert (HUAdom : "User-Agent" ∈ dom m) by (apply elem_of_dom; eauto).
    apply set_eq. intros key. rewrite !elem_of_union, !elem_of_singleton.
    split; [tauto |]. intros [[-> | ->] | Hkey]; tauto.
  - rewrite dom_insert_L.
    apply set_eq. intros key. rewrite !elem_of_union, !elem_of_singleton. tauto.
Qed.

Lemma Director_Via_witness :
  ∃ req' m',
    httputil.Director
      (NewBackendHandler exampleURL 1000000000 15000000000 (LoggerHandle 0))
      (exampleRequest (Some {[ "Via" := ["1.0 fred"] ]})) = Ok req' ∧
    ReqHeader req' = Some m' ∧
    m' !! "Via" = Some ["1.0 fred, 1.1 router"].
Proof.
  destruct (Director_Via exampleURL 1000000000 15000000000 (LoggerHandle 0)
              (exampleRequest (Some {[ "Via" := ["1.0 fred"] ]}))
              {[ "Via" := ["1.0 fred"] ]} eq_refl)
    as (req' & m' & Hrun & Hheader & _ & _ & HVia & _).
  exists req', m'. split; [exact Hrun |]. split; [exact Hheader | exact HVia].
Defined.

(** * Further properties of the round trip *)



(** X7: a response received from the backend is returned with its status,
    protocol version, body and content length as they came; its header
    map has the same values for every key but [Via], and [Via] holds the
    prior values, if the key was there, followed by the protocol version
    of the response and " router".  Nothing is allocated or logged. *)
Theorem RoundTrip_success_response
    (network : Transport → Request → option Response * option error)
    (bt : backendTransport) (req : Request) (w : World)
    (r : Response) (m : gmap string (list string)) :
  network (wrapped bt) req = (Some r, None) →
  RespHeader r = Some m →
  ∃ resp m',
    RoundTrip network bt req w = Ok ((Some resp, None), w) ∧
    Status resp = Status r ∧
    StatusCode resp = StatusCode r ∧
    RespProtoMajor resp = RespProtoMajor r ∧
    RespProtoMinor resp = RespProtoMinor r ∧
    RespBody resp = RespBody r ∧
    ContentLength resp = ContentLength r ∧
    RespHeader resp = Some m' ∧
    m' !! "Via" =
      Some [match m !! "Via" with
            | Some prior =>
                Strings.Join prior ", " +:+ ", " +:+
                Sprintf_d_dot_d (RespProtoMajor r) (RespProtoMinor r) +:+ " router"
            | None => Sprintf_d_dot_d (RespProtoMajor r) (RespProtoMinor r) +:+ " router"
            end] ∧
    ∀ key, key ≠ "Via" → m' !! key = m !! key.
Proof.
  intros Houtcome Hheader.
  destruct (RoundTrip_success network bt req w r m Houtcome Hheader) as (m' & Hm' & Hrun).
  rewrite populateViaHeader_alloc in Hm'. injection Hm' as <-.
  eexists _, _. split; [exact Hrun |].
  cbn [withRespHeader Status StatusCode RespProtoMajor RespProtoMinor RespBody
         ContentLength RespHeader].
  repeat (split; [reflexivity |]).
  split; [apply lookup_insert_eq |].
  intros key Hkey. now apply lookup_insert_ne.
Qed.

Lemma RoundTrip_success_response_witness :
  ∃ resp m',
    RoundTrip answeringNetwork exampleTransport (exampleRequest (Some ∅)) emptyWorld =
      Ok ((Some resp, None), emptyWorld) ∧
    StatusCode resp = 200 ∧
    RespBody resp = Some (connBody "hello" false) ∧
    RespHeader resp = Some m' ∧
    m' !! "Via" = Some ["1.1 router"] ∧
    m' !! "Content-Type" = Some ["text/plain"].
Proof.
  destruct (RoundTrip_success_response answeringNetwork exampleTransport
              (exampleRequest (Some ∅)) emptyWorld answer
              {[ "Content-Type" := ["text/plain"] ]} eq_refl eq_refl)
    as (resp & m' & Hrun & _ & Hcode & _ & _ & Hbody & _ & Hheader & HVia & Hother).
  exists resp, m'. split; [exact Hrun |]. split; [exact Hcode |].
  split; [exact Hbody |]. split; [exact Hheader |]. split; [exact HVia |].
  rewrite Hother by discriminate. reflexivity.
Defined.

Lemma Err_is_true (opErr : net.OpError) (n : syscall.Errno) :
  net.Err_is opErr n = true ↔ net.Err opErr = net.errno n.
Proof.
  unfold net.Err_is. destruct (net.Err opErr) as [n'|].
  - rewrite Z.eqb_eq. split; [now intros -> | now intros [= ->]].
  - split; discriminate.
Qed.

Lemma isConnectionRefused_true (e : error) :
  isConnectionRefused e = true ↔
  ∃ opErr, asOpError e = Some opErr ∧ net.Err opErr = net.errno syscall.ECONNREFUSED.
Proof.
  unfold isConnectionRefused. destruct (asOpError e) as [opErr|].
  - rewrite Err_is_true. split; [eauto | now intros (? & [= <-] & ?)].
  - split; [discriminate | now intros (? & [=] & _)].
Qed.

Lemma isTimeout_true (e : error) :
  isTimeout e = true ↔ ∃ opErr, asOpError e = Some opErr ∧ net.Timeout opErr = true.
Proof.
  unfold isTimeout. destruct (asOpError e) as [opErr|].
  - split; [eauto | now intros (? & [= <-] & ?)].
  - split; [discriminate | now intros (? & [=] & _)].
Qed.

Lemma classify_502_iff (e : error) :
  classify e = 502 ↔ isTimeout e = false ∧ isConnectionRefused e = true.
Proof.
  unfold classify.
  destruct (isTimeout e), (isConnectionRefused e), (gaveUpWaitingForHeaders e),
    (contentLengthMismatch e); split; (intros [? ?] || intros ?);
    (discriminate || auto).
Qed.

Lemma classify_504_iff (e : error) :
  classify e = 504 ↔
  isTimeout e = true ∨
  (isConnectionRefused e = false ∧ gaveUpWaitingForHeaders e = true).
Proof.
  unfold classify.
  destruct (isTimeout e), (isConnectionRefused e), (gaveUpWaitingForHeaders e),
    (contentLengthMismatch e); split;
    (intros [? | [? ?]] || intros ?); (discriminate || auto).
Qed.

Lemma classify_400_iff (e : error) :
  classify e = 400 ↔
  isTimeout e = false ∧ isConnectionRefused e = false ∧
  gaveUpWaitingForHeaders e = false ∧ contentLengthMismatch e = true.
Proof.
  unfold classify.
  destruct (isTimeout e), (isConnectionRefused e), (gaveUpWaitingForHeaders e),
    (contentLengthMismatch e); split;
    (intros (? & ? & ? & ?) || intros ?); (discriminate || auto).
Qed.

(** X8: the response the call makes up for a failure has one of the four
    statuses 400, 500, 502 and 504, empty status text and protocol
    version, no header map (so no [Via] either) and the empty body,
    whatever response came along with the error. *)
Theorem RoundTrip_failure_response
    (network : Transport → Request → option Response * option error)
    (bt : backendTransport) (req : Request) (w : World)
    (resp0 : option Response) (e : error) :
  network (wrapped bt) req = (resp0, Some e) →
  ∃ status w',
    RoundTrip network bt req w =
      Ok ((Some (mkResponse "" status 0 0 None (Some (NopCloser (NewReader ""))) 0),
           None), w') ∧
    (status = 400 ∨ status = 500 ∨ status = 502 ∨ status = 504).
Proof.
  intros Houtcome. rewrite (RoundTrip_failure network bt req w resp0 e Houtcome).
  exists (classify e). eexists. split; [reflexivity |].
  unfold classify.
  destruct (isTimeout e), (isConnectionRefused e), (gaveUpWaitingForHeaders e),
    (contentLengthMismatch e); auto.
Qed.

Lemma RoundTrip_failure_response_witness :
  ∃ status w',
    RoundTrip refusingNetwork exampleTransport (exampleRequest (Some ∅)) emptyWorld =
      Ok ((Some (mkResponse "" status 0 0 None (Some (NopCloser (NewReader ""))) 0),
           None), w') ∧
    (status = 400 ∨ status = 500 ∨ status = 502 ∨ status = 504).
Proof.
  apply (RoundTrip_failure_response refusingNetwork exampleTransport
           (exampleRequest (Some ∅)) emptyWorld None refused).
  reflexivity.
Defined.

(** X9: where the statuses 502 and 504 come from.  The call answers 502
    only for an operation error that did not time out and whose cause is
    [ECONNREFUSED]; it answers 504 only for an operation error that timed
    out, or for an error that is not a refused connection and whose
    message is, to the letter, that of the wait for response headers
    running out. *)
Theorem RoundTrip_status_origin
    (network : Transport → Request → option Response * option error)
    (bt : backendTransport) (req : Request) (w : World)
    (resp0 : option Response) (e : error) :
  network (wrapped bt) req = (resp0, Some e) →
  ∃ resp w',
    RoundTrip network bt req w = Ok ((Some resp, None), w') ∧
    (StatusCode resp = 502 ↔
     ∃ opErr, asOpError e = Some opErr ∧ net.Timeout opErr = false ∧
              net.Err opErr = net.errno syscall.ECONNREFUSED) ∧
    (StatusCode resp = 504 ↔
     (∃ opErr, asOpError e = Some opErr ∧ net.Timeout opErr = true) ∨
     ((∀ opErr, asOpError e = Some opErr →
                net.Err opErr ≠ net.errno syscall.ECONNREFUSED) ∧
      Error e = "net/http: timeout awaiting response headers")).
Proof.
  intros Houtcome.
  destruct (newErrorResponse_StatusCode (classify e)) as (resp & Hresp & Hstatus).
  exists resp. eexists. split.
  { rewrite (RoundTrip_failure network bt req w resp0 e Houtcome), Hresp. reflexivity. }
  rewrite Hstatus, classify_502_iff, classify_504_iff, isTimeout_true.
  unfold gaveUpWaitingForHeaders. rewrite String.eqb_eq.
  split.
  - rewrite isConnectionRefused_true. unfold isTimeout. split.
    + intros [Ht (opErr & HopErr & Herr)]. exists opErr. rewrite HopErr in Ht. auto.
    + intros (opErr & HopErr & Ht & Herr). rewrite HopErr. eauto.
  - assert (Hrefused : isConnectionRefused e = false ↔
              ∀ opErr, asOpError e = Some opErr →
                       net.Err opErr ≠ net.errno syscall.ECONNREFUSED).
    { rewrite <- not_true_iff_false, isConnectionRefused_true. split.
      - intros Hno opErr HopErr Herr. apply Hno. eauto.
      - intros Hall (opErr & HopErr & Herr). exact (Hall opErr HopErr Herr). }
    rewrite Hrefused. reflexivity.
Qed.

Lemma RoundTrip_status_origin_witness :
  ∃ resp w',
    RoundTrip refusingNetwork exampleTransport (exampleRequest (Some ∅)) emptyWorld =
      Ok ((Some resp, None), w') ∧
    StatusCode resp = 502.
Proof.
  destruct (RoundTrip_status_origin refusingNetwork exampleTransport
              (exampleRequest (Some ∅)) emptyWorld None refused eq_refl)
    as (resp & w' & Hrun & H502 & _).
  exists resp, w'. split; [exact Hrun |].
  apply H502. eexists. split; [reflexivity |]. split; reflexivity.
Defined.

(** X10: the call answers 400 exactly for an error that is no operation
    timeout and no refused connection, whose message is not that of the
    wait for response headers, and whose message contains, anywhere, the
    text "http: Request", one rune other than a newline, "ContentLength=",
    one or more ASCII digits, " with Body length " and one or more ASCII
    digits. *)
Theorem RoundTrip_400_iff
    (network : Transport → Request → option Response * option error)
    (bt : backendTransport) (req : Request) (w : World)
    (resp0 : option Response) (e : error) :
  network (wrapped bt) req = (resp0, Some e) →
  ∃ resp w',
    RoundTrip network bt req w = Ok ((Some resp, None), w') ∧
    (StatusCode resp = 400 ↔
     isTimeout e = false ∧ isConnectionRefused e = false ∧
     Error e ≠ "net/http: timeout awaiting response headers" ∧
     ∃ before c declared actual after,
       utf8.runes (Error e) =
         before ++
         (utf8.runes "http: Request" ++ [c] ++ utf8.runes "ContentLength=" ++
          declared ++ utf8.runes " with Body length " ++ actual) ++
         after ∧
       c ≠ 10 ∧
       declared ≠ [] ∧ Forall digit declared ∧
       actual ≠ [] ∧ Forall digit actual).
Proof.
  intros Houtcome.
  destruct (newErrorResponse_StatusCode (classify e)) as (resp & Hresp & Hstatus).
  exists resp. eexists. split.
  { rewrite (RoundTrip_failure network bt req w resp0 e Houtcome), Hresp. reflexivity. }
  rewrite Hstatus, classify_400_iff, contentLengthMismatch_spec.
  unfold gaveUpWaitingForHeaders. rewrite String.eqb_neq. reflexivity.
Qed.

Lemma RoundTrip_400_iff_witness :
  ∃ resp w',
    RoundTrip
      (λ _ _, (None, Some (mkError "http: Request.ContentLength=12 with Body length 4" None)))
      exampleTransport (exampleRequest (Some ∅)) emptyWorld =
      Ok ((Some resp, None), w') ∧
    StatusCode resp = 400.
Proof.
  destruct (RoundTrip_400_iff
              (λ _ _, (None, Some (mkError "http: Request.ContentLength=12 with Body length 4"
                                     None)))
              exampleTransport (exampleRequest (Some ∅)) emptyWorld None _ eq_refl)
    as (resp & w' & Hrun & H400).
  exists resp, w'. split; [exact Hrun |].
  apply H400. split; [reflexivity |]. split; [reflexivity |]. split; [discriminate |].
  exists [], 46, [49; 50], [52], [].
  split; [vm_compute; reflexivity |]. split; [lia |].
  split; [discriminate |]. split; [repeat constructor; unfold digit; lia |].
  split; [discriminate |]. repeat constructor; unfold digit; lia.
Defined.

(** X11: the detail map handed to the logger for a failure has the two
    keys "error" and "status" and no other: the text of the error, and
    the status of the response returned, as a number. *)
Theorem RoundTrip_failure_details
    (network : Transport → Request → option Response * option error)
    (bt : backendTransport) (req : Request) (w : World)
    (resp0 : option Response) (e : error) :
  network (wrapped bt) req = (resp0, Some e) →
  ∃ resp w' entry,
    RoundTrip network bt req w = Ok ((Some resp, None), w') ∧
    log w' = log w ++ [entry] ∧
    details entry =
      {[ "error" := VString (Error e); "status" := VInt (StatusCode resp) ]} ∧
    dom (details entry) = {[ "error"; "status" ]}.
Proof.
  intros Houtcome.
  destruct (newErrorResponse_StatusCode (classify e)) as (resp & Hresp & Hstatus).
  exists resp. eexists _, _. split.
  { rewrite (RoundTrip_failure network bt req w resp0 e Houtcome), Hresp. reflexivity. }
  cbn [log]. split; [reflexivity |]. cbn [details]. rewrite Hstatus.
  split; [reflexivity |].
  unfold finalDetails. rewrite dom_insert_L, dom_singleton_L. reflexivity.
Qed.

Lemma RoundTrip_failure_details_witness :
  ∃ resp w' entry,
    RoundTrip refusingNetwork exampleTransport (exampleRequest (Some ∅)) emptyWorld =
      Ok ((Some resp, None), w') ∧
    log w' = [entry] ∧
    details entry =
      {[ "error" := VString "dial tcp 127.0.0.1:3160: connection refused";
         "status" := VInt (StatusCode resp) ]}.
Proof.
  destruct (RoundTrip_failure_details refusingNetwork exampleTransport
              (exampleRequest (Some ∅)) emptyWorld None refused eq_refl)
    as (resp & w' & entry & Hrun & Hlog & Hdetails & _).
  exists resp, w', entry. split; [exact Hrun |]. split; [exact Hlog | exact Hdetails].
Defined.

(** X12: the handler built by [NewBackendHandler] has a backend transport
    installed, and a failure of a round trip through that transport is
    reported to the logger the handler was built with, once, together
    with the request that was sent. *)
Theorem NewBackendHandler_logs_to_its_logger
    (network : Transport → Request → option Response * option error)
    (backendUrl : URL) (connectTimeout headerTimeout : Z) (l : Logger)
    (req : Request) (w : World) :
  ∃ bt,
    httputil.ProxyTransport
      (NewBackendHandler backendUrl connectTimeout headerTimeout l) = Some bt ∧
    ∀ resp0 e,
      network (wrapped bt) req = (resp0, Some e) →
      ∃ resp w' entry,
        RoundTrip network bt req w = Ok ((Some resp, None), w') ∧
        log w' = log w ++ [entry] ∧
        callee entry = l ∧
        request entry = req.
Proof.
  eexists. split; [reflexivity |]. intros resp0 e Houtcome.
  destruct (newErrorResponse_StatusCode (classify e)) as (resp & Hresp & _).
  exists resp. eexists _, _. split.
  { rewrite (RoundTrip_failure network _ req w resp0 e Houtcome), Hresp. reflexivity. }
  cbn [log]. split; [reflexivity |]. split; reflexivity.
Qed.

Lemma NewBackendHandler_logs_to_its_logger_witness :
  ∃ bt,
    httputil.ProxyTransport
      (NewBackendHandler exampleURL 1000000000 15000000000 (LoggerHandle 7)) = Some bt ∧
    ∃ resp w' entry,
      RoundTrip refusingNetwork bt (exampleRequest (Some ∅)) emptyWorld =
        Ok ((Some resp, None), w') ∧
      log w' = [entry] ∧
      callee entry = LoggerHandle 7.
Proof.
  destruct (NewBackendHandler_logs_to_its_logger refusingNetwork exampleURL
              1000000000 15000000000 (LoggerHandle 7) (exampleRequest (Some ∅)) emptyWorld)
    as (bt & Hbt & Hfail).
  exists bt. split; [exact Hbt |].
  destruct (Hfail None refused eq_refl) as (resp & w' & entry & Hrun & Hlog & Hcallee & _).
  exists resp, w', entry. split; [exact Hrun |]. split; [exact Hlog | exact Hcallee].
Defined.
